(** * hlnode-data-web: the WebSocket multiplexing layer and the bucket calculator

    A shallow embedding of [services/websocketManager.ts] (class
    [WebSocketManager]) and of the bucket-size functions of
    [utils/calculations.ts], with the properties of the specification
    stated and proved (or refuted) over it.

    Conventions of the embedding:
    - a JavaScript value of type [unknown] is a [Json] term; numbers inside
      such values are integers, strings are sequences of 8-bit code units;
    - a JavaScript object is the list of its own properties in enumeration
      order;
    - the manager instance and the host (sockets, timers, frames handed to
      [socket.send], callback invocations) form one [World] record that the
      methods pass along explicitly;
    - the numbers of the bucket calculator are exact rationals. *)

From Stdlib Require Import ZArith QArith Qpower Lia Ascii String DecimalString.
From stdpp Require Import base list strings sorting.

Local Open Scope string_scope.
Local Open Scope list_scope.

Set Warnings "-register-all".

(** ** JavaScript values *)

Inductive Json : Type :=
  | JUndefined
  | JNull
  | JBool (b : bool)
  | JNum (n : Z)
  | JStr (s : string)
  | JArr (items : list Json)
  | JObj (props : list (string * Json)).

(** An object: its own enumerable properties, in enumeration order. *)
Abbreviation Obj := (list (string * Json)).

(** ** Strings: code-unit order, as used by [Array.prototype.sort()] *)

Fixpoint str_leb (a b : string) : bool :=
  match a, b with
  | EmptyString, _ => true
  | String _ _, EmptyString => false
  | String x a', String y b' =>
      let nx := nat_of_ascii x in
      let ny := nat_of_ascii y in
      if (nx <? ny)%nat then true
      else if (nx =? ny)%nat then str_leb a' b' else false
  end.

Definition str_le (a b : string) : Prop := str_leb a b = true.

#[local] Instance str_le_dec a b : Decision (str_le a b).
Proof. unfold str_le. apply _. Defined.

(** [keys.sort()] with the default comparator. *)
Definition sort (keys : list string) : list string := merge_sort str_le keys.

(** ** Objects *)

Definition is_digit (c : ascii) : bool :=
  let n := nat_of_ascii c in ((48 <=? n) && (n <=? 57))%nat.

Fixpoint digits_value (s : string) (acc : N) : option N :=
  match s with
  | EmptyString => Some acc
  | String c r =>
      if is_digit c
      then digits_value r (10 * acc + (N_of_ascii c - 48))%N
      else None
  end.

(** A property name that is an array index (a canonical numeric string below
    [2^32 - 1]); such properties are enumerated first, in numeric order. *)
Definition array_index (k : string) : option N :=
  match k with
  | EmptyString => None
  | String c r =>
      if ((nat_of_ascii c =? 48)%nat && negb (String.eqb r EmptyString))%bool
      then None
      else match digits_value k 0 with
           | Some n => if (n <? 4294967295)%N then Some n else None
           | None => None
           end
  end.

Fixpoint obj_has (k : string) (o : Obj) : bool :=
  match o with
  | [] => false
  | (k', _) :: o' => if String.eqb k k' then true else obj_has k o'
  end.

(** [o[k]]: the value of an own property, [undefined] when absent. *)
Fixpoint obj_get (k : string) (o : Obj) : Json :=
  match o with
  | [] => JUndefined
  | (k', v) :: o' => if String.eqb k k' then v else obj_get k o'
  end.

Fixpoint obj_update (k : string) (v : Json) (o : Obj) : Obj :=
  match o with
  | [] => []
  | (k', v') :: o' =>
      if String.eqb k k' then (k', v) :: o' else (k', v') :: obj_update k v o'
  end.

Fixpoint obj_insert_index (i : N) (k : string) (v : Json) (o : Obj) : Obj :=
  match o with
  | [] => [(k, v)]
  | (k', v') :: o' =>
      match array_index k' with
      | Some j =>
          if (j <? i)%N then (k', v') :: obj_insert_index i k v o'
          else (k, v) :: o
      | None => (k, v) :: o
      end
  end.

(** [o[k] = v]: an existing property keeps its place, a new array index goes
    among the indices, any other new property goes last. *)
Definition obj_set (k : string) (v : Json) (o : Obj) : Obj :=
  if obj_has k o then obj_update k v o
  else match array_index k with
       | Some i => obj_insert_index i k v o
       | None => o ++ [(k, v)]
       end.

Definition Object_keys (o : Obj) : list string := map fst o.

(** [{ ...a, ...b }] onto an object under construction. *)
Definition obj_assign (target source : Obj) : Obj :=
  fold_left (fun acc kv => obj_set (fst kv) (snd kv) acc) source target.

(** ** [JSON.stringify] *)

Definition quote_char : ascii := ascii_of_nat 34.
Definition backslash_char : ascii := ascii_of_nat 92.

Definition hex_digit (n : nat) : ascii :=
  if (n <? 10)%nat then ascii_of_nat (48 + n) else ascii_of_nat (87 + n).

Definition escape_unit (c : ascii) : string :=
  let n := nat_of_ascii c in
  let esc (x : string) := String backslash_char x in
  if (n =? 34)%nat then esc (String quote_char EmptyString)
  else if (n =? 92)%nat then esc (String backslash_char EmptyString)
  else if (n =? 8)%nat then esc "b"
  else if (n =? 9)%nat then esc "t"
  else if (n =? 10)%nat then esc "n"
  else if (n =? 12)%nat then esc "f"
  else if (n =? 13)%nat then esc "r"
  else if (n <? 32)%nat
       then esc ("u00" +:+ String (hex_digit (n / 16))
                            (String (hex_digit (n mod 16)) EmptyString))
  else String c EmptyString.

Fixpoint escape_units (s : string) : string :=
  match s with
  | EmptyString => EmptyString
  | String c r => escape_unit c +:+ escape_units r
  end.

Definition quote (s : string) : string :=
  String quote_char (escape_units s +:+ String quote_char EmptyString).

Definition number_to_string (n : Z) : string :=
  NilZero.string_of_int (Z.to_int n).

Fixpoint join (sep : string) (parts : list string) : string :=
  match parts with
  | [] => EmptyString
  | [p] => p
  | p :: rest => p +:+ sep +:+ join sep rest
  end.

(** [None] stands for the result [undefined]. A property whose value has no
    JSON text is left out of an object and printed as [null] in an array. *)
Fixpoint JSON_stringify (v : Json) : option string :=
  match v with
  | JUndefined => None
  | JNull => Some "null"
  | JBool b => Some (if b then "true" else "false")
  | JNum n => Some (number_to_string n)
  | JStr s => Some (quote s)
  | JArr items =>
      let item x := match JSON_stringify x with Some s => s | None => "null" end in
      Some ("[" +:+ join "," (List.map item items) +:+ "]")
  | JObj props =>
      let prop kv :=
        match JSON_stringify (snd kv) with
        | Some s => [quote (fst kv) +:+ ":" +:+ s]
        | None => []
        end in
      Some ("{" +:+ join "," (List.flat_map prop props) +:+ "}")
  end.

Definition template (o : option string) : string :=
  match o with Some s => s | None => "undefined" end.

(** ** [WebSocketManager.buildKey] *)

Definition buildKey (type : string) (params : Obj) : string :=
  let sortedParams :=
    fold_left (fun acc key => obj_set key (obj_get key params) acc)
              (sort (Object_keys params)) [] in
  type +:+ ":" +:+ template (JSON_stringify (JObj sortedParams)).

(** ** Constants ([constants/config.ts]) *)

Definition RECONNECT_DELAY_MS : Z := 2000.
Definition MAX_RECONNECT_DELAY_MS : Z := 30000.

(** ** The manager and its host *)

Inductive ConnectionStatus : Set :=
  | connecting | connected | disconnected | error.

(** [WebSocket.readyState]. *)
Inductive ReadyState : Set := CONNECTING | OPEN | CLOSING | CLOSED.

(** A [MessageCallback], known by its identity. *)
Abbreviation Callback := nat.

Record Subscription : Type := mkSubscription {
  type : string;
  params : Obj;
  callbacks : list Callback   (* a [Set]: no repetition, insertion order *)
}.

Inductive Method : Set := subscribe_method | unsubscribe_method.

(** The object handed to [send]: [{ method, subscription }]. *)
Record OutgoingMessage : Type := mkOutgoing {
  method : Method;
  subscription : Obj
}.

(** [WebSocketMessage], the parsed inbound frame. *)
Record WebSocketMessage : Type := mkMessage {
  channel : string;
  data : Json
}.

Record World : Type := mkWorld {
  (* fields of the [WebSocketManager] instance *)
  socket : option nat;
  subscriptions : list (string * Subscription);   (* a [Map], insertion order *)
  reconnectAttempts : nat;
  reconnectTimeout : option nat;
  status : ConnectionStatus;
  paused : bool;
  (* the host *)
  sockets : list ReadyState;        (* every [WebSocket] constructed so far *)
  timers : list (nat * Z);          (* pending [setTimeout] handles, with delay *)
  timersCreated : nat;
  wire : list (nat * OutgoingMessage);   (* frames given to [socket.send] *)
  delivered : list (Callback * Json);    (* callback invocations *)
  urlValid : bool                   (* [new WebSocket(url)] does not throw *)
}.

Definition maxReconnectAttempts : nat := 10.

Definition set_socket (v : option nat) (w : World) : World :=
  mkWorld v (subscriptions w) (reconnectAttempts w) (reconnectTimeout w)
          (status w) (paused w) (sockets w) (timers w) (timersCreated w)
          (wire w) (delivered w) (urlValid w).

Definition set_subscriptions (v : list (string * Subscription)) (w : World) : World :=
  mkWorld (socket w) v (reconnectAttempts w) (reconnectTimeout w)
          (status w) (paused w) (sockets w) (timers w) (timersCreated w)
          (wire w) (delivered w) (urlValid w).

Definition set_reconnectAttempts (v : nat) (w : World) : World :=
  mkWorld (socket w) (subscriptions w) v (reconnectTimeout w)
          (status w) (paused w) (sockets w) (timers w) (timersCreated w)
          (wire w) (delivered w) (urlValid w).

Definition set_reconnectTimeout (v : option nat) (w : World) : World :=
  mkWorld (socket w) (subscriptions w) (reconnectAttempts w) v
          (status w) (paused w) (sockets w) (timers w) (timersCreated w)
          (wire w) (delivered w) (urlValid w).

Definition set_paused (v : bool) (w : World) : World :=
  mkWorld (socket w) (subscriptions w) (reconnectAttempts w) (reconnectTimeout w)
          (status w) v (sockets w) (timers w) (timersCreated w)
          (wire w) (delivered w) (urlValid w).

Definition set_sockets (v : list ReadyState) (w : World) : World :=
  mkWorld (socket w) (subscriptions w) (reconnectAttempts w) (reconnectTimeout w)
          (status w) (paused w) v (timers w) (timersCreated w)
          (wire w) (delivered w) (urlValid w).

Definition set_timers (v : list (nat * Z)) (w : World) : World :=
  mkWorld (socket w) (subscriptions w) (reconnectAttempts w) (reconnectTimeout w)
          (status w) (paused w) (sockets w) v (timersCreated w)
          (wire w) (delivered w) (urlValid w).

Definition set_timersCreated (v : nat) (w : World) : World :=
  mkWorld (socket w) (subscriptions w) (reconnectAttempts w) (reconnectTimeout w)
          (status w) (paused w) (sockets w) (timers w) v
          (wire w) (delivered w) (urlValid w).

Definition set_wire (v : list (nat * OutgoingMessage)) (w : World) : World :=
  mkWorld (socket w) (subscriptions w) (reconnectAttempts w) (reconnectTimeout w)
          (status w) (paused w) (sockets w) (timers w) (timersCreated w)
          v (delivered w) (urlValid w).

Definition set_delivered (v : list (Callback * Json)) (w : World) : World :=
  mkWorld (socket w) (subscriptions w) (reconnectAttempts w) (reconnectTimeout w)
          (status w) (paused w) (sockets w) (timers w) (timersCreated w)
          (wire w) v (urlValid w).

(** The manager as constructed: [new WebSocketManager(url)]. *)
Definition initial (url_ok : bool) : World :=
  mkWorld None [] 0 None disconnected false [] [] 0 [] [] url_ok.

(** *** The host: sockets and timers *)

Definition readyState (sid : nat) (w : World) : ReadyState :=
  match sockets w !! sid with
  | Some r => r
  | None => CLOSED
  end.

Definition is_OPEN (r : ReadyState) : bool :=
  match r with OPEN => true | _ => false end.

(** [this.socket?.readyState === WebSocket.OPEN] *)
Definition socket_open (w : World) : bool :=
  match socket w with
  | Some sid => is_OPEN (readyState sid w)
  | None => false
  end.

(** [new WebSocket(url)], when it does not throw: a fresh socket, connecting. *)
Definition new_WebSocket (w : World) : nat * World :=
  (length (sockets w), set_sockets (sockets w ++ [CONNECTING]) w).

(** [socket.close()]: the closing handshake starts; the close event comes
    later, as an event of its own. *)
Definition socket_close (sid : nat) (w : World) : World :=
  match readyState sid w with
  | CONNECTING | OPEN => set_sockets (<[sid := CLOSING]> (sockets w)) w
  | CLOSING | CLOSED => w
  end.

Definition setTimeout (delay : Z) (w : World) : nat * World :=
  (timersCreated w,
   set_timersCreated (S (timersCreated w))
     (set_timers (timers w ++ [(timersCreated w, delay)]) w)).

Definition clearTimeout (tid : nat) (w : World) : World :=
  set_timers (List.filter (fun t => negb (fst t =? tid)%nat) (timers w)) w.

(** *** The [Map] of subscriptions *)

Fixpoint map_get (key : string) (m : list (string * Subscription)) : option Subscription :=
  match m with
  | [] => None
  | (k, s) :: m' => if String.eqb key k then Some s else map_get key m'
  end.

Definition map_has (key : string) (m : list (string * Subscription)) : bool :=
  match map_get key m with Some _ => true | None => false end.

Fixpoint map_set (key : string) (s : Subscription) (m : list (string * Subscription))
  : list (string * Subscription) :=
  match m with
  | [] => [(key, s)]
  | (k, s') :: m' =>
      if String.eqb key k then (k, s) :: m' else (k, s') :: map_set key s m'
  end.

Definition map_delete (key : string) (m : list (string * Subscription))
  : list (string * Subscription) :=
  List.filter (fun entry => negb (String.eqb key (fst entry))) m.

(** [Set.add] and [Set.delete] on the callbacks of a subscription. *)
Definition set_add (cb : Callback) (s : list Callback) : list Callback :=
  if existsb (Nat.eqb cb) s then s else s ++ [cb].

Definition set_delete (cb : Callback) (s : list Callback) : list Callback :=
  List.filter (fun c => negb (c =? cb)%nat) s.

(** *** Sending *)

Definition send (message : OutgoingMessage) (w : World) : World :=
  if socket_open w
  then match socket w with
       | Some sid => set_wire (wire w ++ [(sid, message)]) w
       | None => w
       end
  else w.

(** [{ type, ...params }] *)
Definition subscription_of (type : string) (params : Obj) : Obj :=
  obj_assign [("type", JStr type)] params.

Definition sendSubscribe (type : string) (params : Obj) (w : World) : World :=
  send (mkOutgoing subscribe_method (subscription_of type params)) w.

Definition sendUnsubscribe (type : string) (params : Obj) (w : World) : World :=
  send (mkOutgoing unsubscribe_method (subscription_of type params)) w.

(** Status listeners observe the status and do not call back into the
    manager; they are left out. *)
Definition setStatus (st : ConnectionStatus) (w : World) : World :=
  mkWorld (socket w) (subscriptions w) (reconnectAttempts w) (reconnectTimeout w)
          st (paused w) (sockets w) (timers w) (timersCreated w)
          (wire w) (delivered w) (urlValid w).

(** *** Connection life cycle *)

Definition attemptReconnect (w : World) : World :=
  if paused w then w
  else if (maxReconnectAttempts <=? reconnectAttempts w)%nat
  then setStatus error w
  else
    let delay := Z.min (RECONNECT_DELAY_MS * 2 ^ Z.of_nat (reconnectAttempts w))
                       MAX_RECONNECT_DELAY_MS in
    let w1 := set_reconnectAttempts (S (reconnectAttempts w)) w in
    let '(tid, w2) := setTimeout delay w1 in
    set_reconnectTimeout (Some tid) w2.

Definition connect (w : World) : World :=
  if socket_open w then w
  else
    let w1 := setStatus connecting w in
    if urlValid w1
    then let '(sid, w2) := new_WebSocket w1 in set_socket (Some sid) w2
    else attemptReconnect (setStatus error w1).

Definition forEach_subscription (f : Subscription -> World -> World) (w : World) : World :=
  fold_left (fun acc entry => f (snd entry) acc) (subscriptions w) w.

(** The handlers that [connect] installs on a socket. *)
Definition onopen (w : World) : World :=
  let w1 := set_reconnectAttempts 0 w in
  let w2 := setStatus connected w1 in
  forEach_subscription (fun sub => sendSubscribe (type sub) (params sub)) w2.

Definition onclose (w : World) : World :=
  attemptReconnect (setStatus disconnected w).

Definition onerror (w : World) : World := setStatus error w.

Definition disconnect (w : World) : World :=
  let w1 := match reconnectTimeout w with
            | Some tid => set_reconnectTimeout None (clearTimeout tid w)
            | None => w
            end in
  let w2 := match socket w1 with
            | Some sid => set_socket None (socket_close sid w1)
            | None => w1
            end in
  setStatus disconnected w2.

Definition reconnect (w : World) : World :=
  connect (set_reconnectAttempts 0 (disconnect w)).

(** *** The visibility gate *)

Definition pause (w : World) : World :=
  if paused w then w
  else
    let w1 := set_paused true w in
    let w2 := if socket_open w1
              then forEach_subscription
                     (fun sub => sendUnsubscribe (type sub) (params sub)) w1
              else w1 in
    match reconnectTimeout w2 with
    | Some tid => set_reconnectTimeout None (clearTimeout tid w2)
    | None => w2
    end.

Definition resume (w : World) : World :=
  if negb (paused w) then w
  else
    let w1 := set_paused false w in
    if socket_open w1
    then forEach_subscription
           (fun sub => sendSubscribe (type sub) (params sub)) w1
    else if (0 <? length (subscriptions w1))%nat then connect w1
    else w1.

(** *** Subscribing *)

(** The closure returned by [subscribe]: what it captured. *)
Record Handle : Type := mkHandle {
  h_key : string;
  h_type : string;
  h_params : Obj;
  h_callback : Callback
}.

Definition subscribe (ty : string) (ps : Obj) (callback : Callback) (w : World)
  : Handle * World :=
  let key := buildKey ty ps in
  let w1 := if negb (socket_open w) then connect w else w in
  let w2 :=
    match map_get key (subscriptions w1) with
    | Some sub =>
        set_subscriptions
          (map_set key (mkSubscription (type sub) (params sub)
                                       (set_add callback (callbacks sub)))
                   (subscriptions w1)) w1
    | None =>
        let w' := set_subscriptions
                    (map_set key (mkSubscription ty ps [callback])
                             (subscriptions w1)) w1 in
        if socket_open w' && negb (paused w') then sendSubscribe ty ps w' else w'
    end in
  (mkHandle key ty ps callback, w2).

(** Calling the returned function. *)
Definition unsubscribe (h : Handle) (w : World) : World :=
  match map_get (h_key h) (subscriptions w) with
  | Some sub =>
      let cbs := set_delete (h_callback h) (callbacks sub) in
      match cbs with
      | [] =>
          let w1 := set_subscriptions (map_delete (h_key h) (subscriptions w)) w in
          if socket_open w1 then sendUnsubscribe (h_type h) (h_params h) w1 else w1
      | _ :: _ =>
          set_subscriptions
            (map_set (h_key h) (mkSubscription (type sub) (params sub) cbs)
                     (subscriptions w)) w
      end
  | None => w
  end.

(** *** Routing *)

Definition truthy (v : Json) : bool :=
  match v with
  | JUndefined | JNull => false
  | JBool b => b
  | JNum n => negb (n =? 0)%Z
  | JStr s => negb (String.eqb s EmptyString)
  | JArr _ | JObj _ => true
  end.

(** [a === b] for [a] read from an inbound frame and [b] from the parameters
    of a subscription: primitives compare by value, and two objects are never
    the same object. *)
Definition strict_equal (a b : Json) : bool :=
  match a, b with
  | JUndefined, JUndefined => true
  | JNull, JNull => true
  | JBool x, JBool y => Bool.eqb x y
  | JNum x, JNum y => (x =? y)%Z
  | JStr x, JStr y => String.eqb x y
  | _, _ => false
  end.

(** [item.coin]; [None] is the [TypeError] of reading a property of [null]
    or [undefined]. *)
Definition coin_of (item : Json) : option Json :=
  match item with
  | JUndefined | JNull => None
  | JObj props => Some (obj_get "coin" props)
  | JBool _ | JNum _ | JStr _ | JArr _ => Some JUndefined
  end.

(** [items.some((item) => item.coin === coin)] *)
Fixpoint some_coin (items : list Json) (coin : Json) : option bool :=
  match items with
  | [] => Some false
  | item :: rest =>
      match coin_of item with
      | None => None
      | Some c => if strict_equal c coin then Some true else some_coin rest coin
      end
  end.

Definition matchesChannel (sub : Subscription) (chan : string) (d : Json)
  : option bool :=
  if negb (String.eqb (type sub) chan) then Some false
  else
    let coin := obj_get "coin" (params sub) in
    if truthy coin then
      match d with
      | JArr items => some_coin items coin
      | JObj props => Some (strict_equal (obj_get "coin" props) coin)
      | JUndefined | JNull | JBool _ | JNum _ | JStr _ => Some true
      end
    else Some true.

Section Routing.

(** Whether a callback throws on a payload. Callbacks do not call back
    into the manager. *)
Variable throws : Callback -> Json -> bool.

(** [sub.callbacks.forEach((cb) => cb(data))]; the boolean tells whether an
    exception escaped. *)
Fixpoint call_all (cbs : list Callback) (d : Json) (w : World) : World * bool :=
  match cbs with
  | [] => (w, false)
  | cb :: rest =>
      let w1 := set_delivered (delivered w ++ [(cb, d)]) w in
      if throws cb d then (w1, true) else call_all rest d w1
  end.

Fixpoint route_entries (entries : list (string * Subscription))
         (chan : string) (d : Json) (w : World) : World * bool :=
  match entries with
  | [] => (w, false)
  | entry :: rest =>
      match matchesChannel (snd entry) chan d with
      | None => (w, true)
      | Some true =>
          let '(w1, thrown) := call_all (callbacks (snd entry)) d w in
          if thrown then (w1, true) else route_entries rest chan d w1
      | Some false => route_entries rest chan d w
      end
  end.

Definition routeMessage (message : WebSocketMessage) (w : World) : World * bool :=
  route_entries (subscriptions w) (channel message) (data message) w.

(** [socket.onmessage]. The frame is [None] when [JSON.parse] throws (or
    the parsed value cannot be destructured); the [catch] absorbs every
    exception of the [try] block. *)
Definition onmessage (frame : option WebSocketMessage) (w : World) : World :=
  match frame with
  | Some message => fst (routeMessage message w)
  | None => w
  end.

(** *** Events *)

Inductive Event : Type :=
  | ev_open (sid : nat)
  | ev_error (sid : nat)
  | ev_close (sid : nat)
  | ev_message (sid : nat) (frame : option WebSocketMessage)
  | ev_timer (tid : nat)
  | call_subscribe (ty : string) (ps : Obj) (cb : Callback)
  | call_unsubscribe (i : nat)   (* the function returned by the i-th [subscribe] *)
  | call_pause
  | call_resume
  | call_connect
  | call_reconnect
  | call_disconnect.

Definition is_CLOSED (r : ReadyState) : bool :=
  match r with CLOSED => true | _ => false end.

Definition is_CONNECTING (r : ReadyState) : bool :=
  match r with CONNECTING => true | _ => false end.

Definition pending (tid : nat) (w : World) : bool :=
  existsb (fun t => (fst t =? tid)%nat) (timers w).

(** One event; [None] when the host cannot produce it in this state. The
    second component lists the functions [subscribe] has returned so far. *)
Definition step (e : Event) (st : World * list Handle) : option (World * list Handle) :=
  let '(w, hs) := st in
  match e with
  | ev_open sid =>
      if is_CONNECTING (readyState sid w) && (sid <? length (sockets w))%nat
      then Some (onopen (set_sockets (<[sid := OPEN]> (sockets w)) w), hs)
      else None
  | ev_error sid =>
      if negb (is_CLOSED (readyState sid w)) then Some (onerror w, hs) else None
  | ev_close sid =>
      if negb (is_CLOSED (readyState sid w))
      then Some (onclose (set_sockets (<[sid := CLOSED]> (sockets w)) w), hs)
      else None
  | ev_message sid frame =>
      if is_OPEN (readyState sid w) then Some (onmessage frame w, hs) else None
  | ev_timer tid =>
      if pending tid w then Some (connect (clearTimeout tid w), hs) else None
  | call_subscribe ty ps cb =>
      let '(h, w') := subscribe ty ps cb w in Some (w', hs ++ [h])
  | call_unsubscribe i =>
      match nth_error hs i with
      | Some h => Some (unsubscribe h w, hs)
      | None => None
      end
  | call_pause => Some (pause w, hs)
  | call_resume => Some (resume w, hs)
  | call_connect => Some (connect w, hs)
  | call_reconnect => Some (reconnect w, hs)
  | call_disconnect => Some (disconnect w, hs)
  end.

Fixpoint run (es : list Event) (st : World * list Handle) : option (World * list Handle) :=
  match es with
  | [] => Some st
  | e :: rest =>
      match step e st with
      | Some st' => run rest st'
      | None => None
      end
  end.

(** The states the manager can be in. *)
Definition reachable (w : World) : Prop :=
  exists url_ok es hs, run es (initial url_ok, []) = Some (w, hs).

End Routing.

(** ** The bucket calculator ([utils/calculations.ts]) *)

(** [Math.floor(Math.log10(n))] for an integer [n >= 1]: one less than the
    number of decimal digits. *)
Fixpoint ilog10_fuel (fuel : nat) (n : Z) : Z :=
  match fuel with
  | O => 0
  | S f => if (n <? 10)%Z then 0 else 1 + ilog10_fuel f (n / 10)
  end.

Definition ilog10 (n : Z) : Z := ilog10_fuel (S (Z.to_nat (Z.log2 n))) n.

(** [Math.pow(10, e)] *)
Definition pow10 (e : Z) : Q := Qpower (10 # 1) e.

(** [Math.floor(Math.log10(x))], computed exactly. It is meant for [x > 0];
    the source has [NaN] or [-Infinity] elsewhere. *)
Definition floor_log10 (x : Q) : Z :=
  let e0 := (ilog10 (Qnum x) - ilog10 (Zpos (Qden x)))%Z in
  if Qle_bool (pow10 e0) x then e0 else (e0 - 1)%Z.

Inductive Mantissa : Set := mantissa_2 | mantissa_5.

Record BucketConfig : Type := mkBucketConfig {
  nSigFigs : option Z;
  mantissa : option Mantissa;
  actualBucketSize : Q
}.

(** The result is [None] only for a preferred mantissa that is not positive,
    where the source computes with [NaN] and infinities: no caller passes
    one, and this embedding does not cover it. *)
Definition calculateBucketConfig (currentPrice desiredBucketSize preferredMantissa : Q)
  : option BucketConfig :=
  if Qle_bool desiredBucketSize 0 || Qle_bool currentPrice 0
  then Some (mkBucketConfig None None 0)
  else if Qle_bool preferredMantissa 0 then None
  else
    let priceDigits := (floor_log10 currentPrice + 1)%Z in
    let bucketDigits := floor_log10 (desiredBucketSize / preferredMantissa) in
    let calculatedSigFigs := (priceDigits - bucketDigits)%Z in
    let nSigFigs := Z.max 2 (Z.min 5 calculatedSigFigs) in
    let actualBucketSize := (preferredMantissa * pow10 (priceDigits - nSigFigs))%Q in
    let mantissa :=
      if (nSigFigs =? 5)%Z
      then if Qeq_bool preferredMantissa 2 then Some mantissa_2
           else if Qeq_bool preferredMantissa 5 then Some mantissa_5
           else None
      else None in
    Some (mkBucketConfig (Some nSigFigs) mantissa actualBucketSize).

Definition bucket_options : list (Z * Q) :=
  [ (5%Z, 5%Q);     (* Finest *)
    (5%Z, 2%Q);     (* Fine *)
    (4%Z, 1%Q);     (* Medium (default) *)
    (3%Z, 1%Q);     (* Coarse *)
    (2%Z, 1%Q) ].   (* Coarsest *)

Definition generateBucketOptions (currentPrice : Q) : list Q :=
  if Qle_bool currentPrice 0 then []
  else
    let priceDigits := (floor_log10 currentPrice + 1)%Z in
    List.map (fun o => (snd o * pow10 (priceDigits - fst o))%Q) bucket_options.


(** ** Notions of the specification *)


(** A sequence of numbers in ascending order. *)
Definition ascending (l : list Q) : Prop := Sorted Qle l.

(** The coin filter of a subscription: [sub.params.coin]; it is a filter
    when it is truthy. *)
Definition coin_filter (sub : Subscription) : Json := obj_get "coin" (params sub).

Definition has_coin_filter (sub : Subscription) : Prop :=
  truthy (coin_filter sub) = true.

(** The payload is an object whose coin field equals the filter. *)
Definition object_with_coin (d coin : Json) : Prop :=
  exists props, d = JObj props /\ strict_equal (obj_get "coin" props) coin = true.

(** The payload is an array, some element of which has a coin field equal
    to the filter. *)
Definition array_with_coin (d coin : Json) : Prop :=
  exists items item c,
    d = JArr items /\ In item items /\
    coin_of item = Some c /\ strict_equal c coin = true.

(** The payload is not an object: a string, a number, a boolean, [null]. *)
Definition not_an_object (d : Json) : Prop :=
  match d with
  | JArr _ | JObj _ => False
  | JUndefined | JNull | JBool _ | JNum _ | JStr _ => True
  end.

(** When a subscription receives a message, in the words of the
    specification. *)
Definition receives_as_specified (sub : Subscription) (chan : string) (d : Json) : Prop :=
  type sub = chan /\
  (~ has_coin_filter sub \/
   object_with_coin d (coin_filter sub) \/
   array_with_coin d (coin_filter sub)).

(** The same, with the payloads that are not objects let through. *)
Definition receives (sub : Subscription) (chan : string) (d : Json) : Prop :=
  type sub = chan /\
  (~ has_coin_filter sub \/
   not_an_object d \/
   object_with_coin d (coin_filter sub) \/
   array_with_coin d (coin_filter sub)).

(** An array payload has no [null] element (reading the coin of which would
    throw). *)
Definition payload_safe (d : Json) : Prop :=
  match d with
  | JArr items => Forall (fun item => coin_of item <> None) items
  | _ => True
  end.

(** The invocations that deliver a payload to every callback of a
    subscription. *)
Definition deliveries_to (sub : Subscription) (d : Json) : list (Callback * Json) :=
  List.map (fun cb => (cb, d)) (callbacks sub).

Definition matches (sub : Subscription) (chan : string) (d : Json) : bool :=
  match matchesChannel sub chan d with
  | Some b => b
  | None => false
  end.

(** The full fan-out of a message: every callback of every matching
    subscription, in iteration order. *)
Definition fanout (entries : list (string * Subscription)) (chan : string) (d : Json)
  : list (Callback * Json) :=
  List.flat_map
    (fun entry => if matches (snd entry) chan d
                  then deliveries_to (snd entry) d else [])
    entries.

(** The invocations of a sequence up to and including the first one that
    throws. *)
Fixpoint upto_throw (throws : Callback -> Json -> bool) (l : list (Callback * Json))
  : list (Callback * Json) :=
  match l with
  | [] => []
  | inv :: rest =>
      inv :: (if throws (fst inv) (snd inv) then [] else upto_throw throws rest)
  end.

(** Some invocation of a sequence throws. *)
Definition some_throws (throws : Callback -> Json -> bool) (l : list (Callback * Json))
  : bool :=
  existsb (fun inv => throws (fst inv) (snd inv)) l.

(** ** Sample inputs *)

Definition never_throws : Callback -> Json -> bool := fun _ _ => false.


Definition btc : Obj := [("coin", JStr "BTC")].

Definition btc_trade : Json := JObj [("coin", JStr "BTC"); ("px", JStr "97000")].



(** A connected manager with two topics: two components subscribed while the
    first socket was still connecting, then the second socket opened. *)
Definition sample_connected : World :=
  match run never_throws
            [ call_subscribe "trades" btc 1;
              call_subscribe "l2Book" btc 2;
              ev_open 1 ]
            (initial true, []) with
  | Some st => fst st
  | None => initial true
  end.

(** ** Consecutive failed connection attempts *)

(** The delay before the k-th reconnect, [k] counted from 1. *)
Definition backoff_delay (k : nat) : Z :=
  Z.min (RECONNECT_DELAY_MS * 2 ^ (Z.of_nat k - 1)) MAX_RECONNECT_DELAY_MS.



Section Failures.

Variable throws : Callback -> Json -> bool.



End Failures.

(** ** Reference counting of one topic *)

Definition other_method (m : Method) : Method :=
  match m with
  | subscribe_method => unsubscribe_method
  | unsubscribe_method => subscribe_method
  end.

(** [n] methods in alternation. *)
Fixpoint alternating (first : Method) (n : nat) : list Method :=
  match n with
  | O => []
  | S k => first :: alternating (other_method first) k
  end.

Definition methods (msgs : list (nat * OutgoingMessage)) : list Method :=
  List.map (fun x => method (snd x)) msgs.

Definition is_method (m : Method) (x : nat * OutgoingMessage) : bool :=
  match m, method (snd x) with
  | subscribe_method, subscribe_method => true
  | unsubscribe_method, unsubscribe_method => true
  | _, _ => false
  end.

(** How many of the wire messages have a given method. *)
Definition count_method (m : Method) (msgs : list (nat * OutgoingMessage)) : nat :=
  length (List.filter (is_method m) msgs).

(** The topic has an entry in the subscription map. *)
Definition registered (key : string) (w : World) : bool :=
  map_has key (subscriptions w).

(** The calls about one topic: [subscribe] with the parameters in any order,
    and calls of the returned functions. *)
Definition topic_event (ty : string) (ps : Obj) (e : Event) : Prop :=
  match e with
  | call_subscribe ty' ps' _ => ty' = ty /\ ps' ≡ₚ ps
  | call_unsubscribe _ => True
  | _ => False
  end.

(** The connection is open on socket [sid] and the manager is not paused. *)
Definition open_unpaused (sid : nat) (w : World) : Prop :=
  socket w = Some sid /\ readyState sid w = OPEN /\ paused w = false.

(** A wire message about the topic, on socket [sid]. *)
Definition about_topic (ty : string) (ps : Obj) (sid : nat)
           (x : nat * OutgoingMessage) : Prop :=
  fst x = sid /\
  exists ps', ps' ≡ₚ ps /\ subscription (snd x) = subscription_of ty ps'.

(** The topic stays registered between the first and the last call of a
    sequence. *)
Definition registered_between (throws : Callback -> Json -> bool) (key : string)
           (es : list Event) (st : World * list Handle) : Prop :=
  forall n, (0 < n < length es)%nat ->
    exists st', run throws (firstn n es) st = Some st' /\
                registered key (fst st') = true.

(** Every function returned by [subscribe] is called at some point. *)
Definition all_released (es : list Event) (hs : list Handle) : Prop :=
  forall i, (i < length hs)%nat -> In (call_unsubscribe i) es.

Definition count_in (m : Method) (l : list Method) : nat :=
  length (List.filter (fun x => match m, x with
                                | subscribe_method, subscribe_method => true
                                | unsubscribe_method, unsubscribe_method => true
                                | _, _ => false
                                end) l).

(** A function returned by [subscribe] for the topic. *)
Definition handle_of (ty : string) (ps : Obj) (h : Handle) : Prop :=
  h_key h = buildKey ty ps /\ h_type h = ty /\ h_params h ≡ₚ ps.

(** The invariant of the calls about one topic, from a world [w0]: [msgs]
    are the wire messages sent since. *)
Definition topic_inv (ty : string) (ps : Obj) (sid : nat) (w0 w : World)
           (hs : list Handle) (msgs : list (nat * OutgoingMessage)) : Prop :=
  open_unpaused sid w /\
  wire w = wire w0 ++ msgs /\
  methods msgs = alternating subscribe_method (length msgs) /\
  Forall (about_topic ty ps sid) msgs /\
  Forall (handle_of ty ps) hs /\
  registered (buildKey ty ps) w = Nat.odd (length msgs) /\
  (forall sub, map_get (buildKey ty ps) (subscriptions w) = Some sub ->
               callbacks sub <> []).

(** Two components subscribe to one topic, naming the parameters in
    different orders, and later both unsubscribe. *)
Definition twap_params : Obj := [("coin", JStr "BTC"); ("user", JStr "0xabc")].

Definition twap_calls : list Event :=
  [ call_subscribe "twap" twap_params 5;
    call_subscribe "twap" [("user", JStr "0xabc"); ("coin", JStr "BTC")] 6;
    call_unsubscribe 0;
    call_unsubscribe 1 ].

Definition after_twap_calls : World * list Handle :=
  match run never_throws twap_calls (sample_connected, []) with
  | Some st => st
  | None => (sample_connected, [])
  end.

(** One component subscribes and unsubscribes, then another one does. *)
Definition twap_calls_in_turn : list Event :=
  [ call_subscribe "twap" twap_params 5;
    call_unsubscribe 0;
    call_subscribe "twap" twap_params 6;
    call_unsubscribe 1 ].


(** * Properties *)

(** ** Decimal logarithm *)

Lemma ilog10_fuel_spec (fuel : nat) : forall n : Z,
  (1 <= n < 2 ^ Z.of_nat fuel)%Z ->
  (0 <= ilog10_fuel fuel n)%Z /\
  (10 ^ ilog10_fuel fuel n <= n < 10 ^ (ilog10_fuel fuel n + 1))%Z.
Proof.
  induction fuel as [|f IH]; intros n Hn.
  - simpl in Hn. lia.
  - cbn [ilog10_fuel]. destruct (Z.ltb_spec n 10) as [Hlt|Hge].
    + simpl. lia.
    + assert (Hpow : (2 ^ Z.of_nat (S f) = 2 * 2 ^ Z.of_nat f)%Z).
      { rewrite Nat2Z.inj_succ, Z.pow_succ_r by lia. reflexivity. }
      assert (Hq : (1 <= n / 10 < 2 ^ Z.of_nat f)%Z).
      { split.
        - apply Z.div_le_lower_bound; lia.
        - apply Z.div_lt_upper_bound; lia. }
      destruct (IH _ Hq) as [H0 [Hlo Hhi]].
      set (e := ilog10_fuel f (n / 10)) in *.
      pose proof (Z.mul_div_le n 10 ltac:(lia)) as Hd1.
      pose proof (Z.mod_pos_bound n 10 ltac:(lia)) as Hm.
      pose proof (Z.div_mod n 10 ltac:(lia)) as Hdm.
      split; [lia|].
      replace (1 + e + 1)%Z with (Z.succ (e + 1)) by lia.
      replace (1 + e)%Z with (Z.succ e) by lia.
      rewrite !Z.pow_succ_r by lia.
      replace (Z.succ e) with (e + 1)%Z in * by lia.
      rewrite Z.pow_add_r in * by lia. lia.
Qed.

Lemma ilog10_spec (n : Z) :
  (1 <= n)%Z ->
  (0 <= ilog10 n)%Z /\ (10 ^ ilog10 n <= n < 10 ^ (ilog10 n + 1))%Z.
Proof.
  intros Hn. unfold ilog10. apply ilog10_fuel_spec.
  split; [lia|].
  rewrite Nat2Z.inj_succ, Z2Nat.id by apply Z.log2_nonneg.
  apply Z.log2_spec. lia.
Qed.

Lemma pow10_pos (e : Z) : (0 < pow10 e)%Q.
Proof. unfold pow10. apply Qpower_0_lt. reflexivity. Qed.

Lemma pow10_sub (u v : Z) :
  (0 <= u)%Z -> (0 <= v)%Z ->
  (pow10 (u - v) * inject_Z (10 ^ v) == inject_Z (10 ^ u))%Q.
Proof.
  intros Hu Hv. unfold pow10.
  rewrite !Zpower_Qpower by assumption.
  change (inject_Z 10) with (10 # 1)%Q.
  rewrite Qpower_minus by discriminate.
  field. apply Qpower_not_0. discriminate.
Qed.

Lemma pow10_lt (a b : Z) : (a < b)%Z -> (pow10 a < pow10 b)%Q.
Proof.
  intros H. unfold pow10. apply Qpower_lt_compat_l; [assumption | reflexivity].
Qed.

Lemma pow10_le (a b : Z) : (a <= b)%Z -> (pow10 a <= pow10 b)%Q.
Proof.
  intros H. unfold pow10. apply Qpower_le_compat_l; [assumption | discriminate].
Qed.

(** Comparing [10^(u-v)] with a fraction, by cross multiplication. *)
Lemma pow10_sub_le (u v a : Z) (b : positive) :
  (0 <= u)%Z -> (0 <= v)%Z ->
  (10 ^ u * Zpos b <= a * 10 ^ v)%Z -> (pow10 (u - v) <= a # b)%Q.
Proof.
  intros Hu Hv H.
  assert (HV : (0 < inject_Z (10 ^ v))%Q).
  { change 0%Q with (inject_Z 0). rewrite <- Zlt_Qlt. apply Z.pow_pos_nonneg; lia. }
  apply (Qmult_le_r _ _ _ HV). rewrite pow10_sub by assumption.
  unfold Qle, Qmult, inject_Z. simpl. lia.
Qed.

Lemma pow10_sub_gt (u v a : Z) (b : positive) :
  (0 <= u)%Z -> (0 <= v)%Z ->
  (a * 10 ^ v < 10 ^ u * Zpos b)%Z -> (a # b < pow10 (u - v))%Q.
Proof.
  intros Hu Hv H.
  assert (HV : (0 < inject_Z (10 ^ v))%Q).
  { change 0%Q with (inject_Z 0). rewrite <- Zlt_Qlt. apply Z.pow_pos_nonneg; lia. }
  apply (Qmult_lt_r _ _ _ HV). rewrite pow10_sub by assumption.
  unfold Qlt, Qmult, inject_Z. simpl. lia.
Qed.

(** [floor_log10 x] is the integer [e] with [10^e <= x < 10^(e+1)]. *)
Lemma floor_log10_spec (x : Q) :
  (0 < x)%Q ->
  (pow10 (floor_log10 x) <= x)%Q /\ (x < pow10 (floor_log10 x + 1))%Q.
Proof.
  intros Hx. destruct x as [a b].
  assert (Ha : (1 <= a)%Z).
  { unfold Qlt in Hx. simpl in Hx. lia. }
  destruct (ilog10_spec a Ha) as [Hla0 [Hla1 Hla2]].
  destruct (ilog10_spec (Zpos b) ltac:(lia)) as [Hlb0 [Hlb1 Hlb2]].
  unfold floor_log10. cbn [Qnum Qden].
  set (la := ilog10 a) in *. set (lb := ilog10 (Zpos b)) in *.
  assert (Hp10 : forall k, (0 <= k)%Z -> (0 < 10 ^ k)%Z).
  { intros k Hk. apply Z.pow_pos_nonneg; lia. }
  pose proof (Hp10 la Hla0) as Hpa. pose proof (Hp10 lb Hlb0) as Hpb.
  destruct (Qle_bool (pow10 (la - lb)) (a # b)) eqn:Hc.
  - split; [apply Qle_bool_iff; exact Hc|].
    replace (la - lb + 1)%Z with ((la + 1) - lb)%Z by lia.
    apply pow10_sub_gt; [lia | lia | nia].
  - split.
    + replace (la - lb - 1)%Z with (la - (lb + 1))%Z by lia.
      apply pow10_sub_le; [lia | lia | nia].
    + replace (la - lb - 1 + 1)%Z with (la - lb)%Z by lia.
      apply Qnot_le_lt. intros Hle. apply Qle_bool_iff in Hle. congruence.
Qed.

(** The exponent is determined by the two bounds. *)
Lemma floor_log10_unique (x : Q) (e : Z) :
  (pow10 e <= x)%Q -> (x < pow10 (e + 1))%Q -> floor_log10 x = e.
Proof.
  intros Hlo Hhi.
  assert (Hx : (0 < x)%Q) by (eapply Qlt_le_trans; [apply pow10_pos | exact Hlo]).
  destruct (floor_log10_spec x Hx) as [Flo Fhi].
  set (f := floor_log10 x) in *.
  destruct (Z.lt_trichotomy f e) as [Hlt | [Heq | Hgt]]; [| exact Heq |].
  - exfalso. assert (Hle : (pow10 (f + 1) <= pow10 e)%Q) by (apply pow10_le; lia).
    apply (Qlt_irrefl x). eapply Qlt_le_trans; [exact Fhi|].
    eapply Qle_trans; [exact Hle | exact Hlo].
  - exfalso. assert (Hle : (pow10 (e + 1) <= pow10 f)%Q) by (apply pow10_le; lia).
    apply (Qlt_irrefl x). eapply Qlt_le_trans; [exact Hhi|].
    eapply Qle_trans; [exact Hle | exact Flo].
Qed.

(** ** The bucket calculator *)

Lemma Qle_bool_false_lt (x y : Q) : (y < x)%Q -> Qle_bool x y = false.
Proof.
  intros H. destruct (Qle_bool x y) eqn:E; [|reflexivity].
  apply Qle_bool_iff in E. exfalso. exact (Qlt_not_le _ _ H E).
Qed.

Lemma Qle_bool_true_le (x y : Q) : (x <= y)%Q -> Qle_bool x y = true.
Proof. intros H. apply Qle_bool_iff. exact H. Qed.

Lemma floor_log10_digits (x : Q) (d : Z) :
  (pow10 (d - 1) <= x)%Q -> (x < pow10 d)%Q -> (floor_log10 x + 1 = d)%Z.
Proof.
  intros Hlo Hhi.
  rewrite (floor_log10_unique x (d - 1)); [lia | exact Hlo |].
  replace (d - 1 + 1)%Z with d by lia. exact Hhi.
Qed.



(** C3. For a positive price [generateBucketOptions] returns the five values
    [mantissa * 10^(priceDigits - nSigFigs)] of the pairs (5,5), (5,2),
    (4,1), (3,1), (2,1), in that order, and for a price that is not positive
    the empty sequence; but the sequence is not ascending: its first value,
    [5 * 10^(priceDigits - 5)], is larger than its second,
    [2 * 10^(priceDigits - 5)]. *)
Theorem generateBucketOptions_not_ascending (currentPrice : Q) :
  ((0 < currentPrice)%Q ->
   forall priceDigits : Z,
     (pow10 (priceDigits - 1) <= currentPrice)%Q ->
     (currentPrice < pow10 priceDigits)%Q ->
     generateBucketOptions currentPrice
     = [ (5 * pow10 (priceDigits - 5))%Q;
         (2 * pow10 (priceDigits - 5))%Q;
         (1 * pow10 (priceDigits - 4))%Q;
         (1 * pow10 (priceDigits - 3))%Q;
         (1 * pow10 (priceDigits - 2))%Q ] /\
     ~ ascending (generateBucketOptions currentPrice)) /\
  ((currentPrice <= 0)%Q -> generateBucketOptions currentPrice = []).
Proof.
  split.
  - intros Hp pd Hlo Hhi.
    assert (E : generateBucketOptions currentPrice
                = [ (5 * pow10 (pd - 5))%Q; (2 * pow10 (pd - 5))%Q;
                    (1 * pow10 (pd - 4))%Q; (1 * pow10 (pd - 3))%Q;
                    (1 * pow10 (pd - 2))%Q ]).
    { unfold generateBucketOptions.
      rewrite (Qle_bool_false_lt _ _ Hp), (floor_log10_digits _ _ Hlo Hhi).
      reflexivity. }
    split; [exact E|].
    rewrite E. unfold ascending. intros Hs.
    apply Sorted_inv in Hs. destruct Hs as [_ Hhd].
    apply HdRel_inv in Hhd.
    apply (Qmult_le_r 5 2 _ (pow10_pos (pd - 5))) in Hhd.
    revert Hhd. apply Qlt_not_le. reflexivity.
  - intros Hp. unfold generateBucketOptions.
    rewrite (Qle_bool_true_le _ _ Hp). reflexivity.
Qed.

Lemma generateBucketOptions_not_ascending_witness :
  ((0 < 4000)%Q /\ (pow10 (4 - 1) <= 4000)%Q /\ (4000 < pow10 4)%Q /\
   generateBucketOptions 4000
   = [ (5 * pow10 (4 - 5))%Q; (2 * pow10 (4 - 5))%Q; (1 * pow10 (4 - 4))%Q;
       (1 * pow10 (4 - 3))%Q; (1 * pow10 (4 - 2))%Q ] /\
   ~ ascending (generateBucketOptions 4000)) /\
  ((0 <= 0)%Q /\ generateBucketOptions 0 = []).
Proof.
  assert (H1 : (pow10 (4 - 1) <= 4000)%Q) by (apply Qle_bool_iff; reflexivity).
  assert (H3 : (0 <= 0)%Q) by (apply Qle_bool_iff; reflexivity).
  split.
  - split; [reflexivity|]. split; [exact H1|]. split; [reflexivity|].
    exact (proj1 (generateBucketOptions_not_ascending 4000) eq_refl 4%Z H1 eq_refl).
  - split; [exact H3|].
    exact (proj2 (generateBucketOptions_not_ascending 0) H3).
Defined.

(** The values at a price of 4000: 0.5, 0.2, 1, 10, 100. *)
Example generateBucketOptions_4000 :
  List.map Qred (generateBucketOptions 4000) = [1 # 2; 1 # 5; 1; 10; 100]%Q.
Proof. reflexivity. Qed.

(** ** The topic key does not depend on the order of the parameters *)

Lemma nat_of_ascii_inj (x y : ascii) : nat_of_ascii x = nat_of_ascii y -> x = y.
Proof.
  intros H. rewrite <- (ascii_nat_embedding x), <- (ascii_nat_embedding y), H.
  reflexivity.
Qed.

Lemma str_le_total : Total str_le.
Proof.
  intros a. unfold str_le. induction a as [|x a IH]; intros b.
  - left. reflexivity.
  - destruct b as [|y b]; [right; reflexivity|]. cbn [str_leb].
    destruct (Nat.ltb_spec (nat_of_ascii x) (nat_of_ascii y));
      destruct (Nat.ltb_spec (nat_of_ascii y) (nat_of_ascii x));
      try (left; reflexivity); try (right; reflexivity).
    assert (E : nat_of_ascii x = nat_of_ascii y) by lia.
    rewrite E, Nat.eqb_refl. apply IH.
Qed.

Lemma str_le_trans : Transitive str_le.
Proof.
  intros a. unfold str_le. induction a as [|x a IH]; intros b c Hab Hbc.
  - reflexivity.
  - destruct b as [|y b]; [discriminate Hab|].
    destruct c as [|z c]; [discriminate Hbc|].
    cbn [str_leb] in *.
    destruct (Nat.ltb_spec (nat_of_ascii x) (nat_of_ascii y));
      destruct (Nat.ltb_spec (nat_of_ascii y) (nat_of_ascii z));
      destruct (Nat.ltb_spec (nat_of_ascii x) (nat_of_ascii z));
      try reflexivity; try lia.
    + destruct (Nat.eqb_spec (nat_of_ascii y) (nat_of_ascii z)); [lia | discriminate].
    + destruct (Nat.eqb_spec (nat_of_ascii x) (nat_of_ascii y)); [lia | discriminate].
    + destruct (Nat.eqb_spec (nat_of_ascii x) (nat_of_ascii y)); [|discriminate].
      destruct (Nat.eqb_spec (nat_of_ascii y) (nat_of_ascii z)); [|discriminate].
      destruct (Nat.eqb_spec (nat_of_ascii x) (nat_of_ascii z)); [|lia].
      exact (IH b c Hab Hbc).
Qed.

Lemma str_le_antisym : AntiSymm (=) str_le.
Proof.
  intros a. unfold str_le. induction a as [|x a IH]; intros b Hab Hba.
  - destruct b; [reflexivity | discriminate Hba].
  - destruct b as [|y b]; [discriminate Hab|]. cbn [str_leb] in *.
    destruct (Nat.ltb_spec (nat_of_ascii x) (nat_of_ascii y));
      destruct (Nat.ltb_spec (nat_of_ascii y) (nat_of_ascii x)); try lia.
    + destruct (Nat.eqb_spec (nat_of_ascii y) (nat_of_ascii x)); [lia | discriminate].
    + destruct (Nat.eqb_spec (nat_of_ascii x) (nat_of_ascii y)); [lia | discriminate].
    + destruct (Nat.eqb_spec (nat_of_ascii x) (nat_of_ascii y)) as [E|]; [|discriminate].
      destruct (Nat.eqb_spec (nat_of_ascii y) (nat_of_ascii x)); [|discriminate].
      apply nat_of_ascii_inj in E. subst y. f_equal. exact (IH b Hab Hba).
Qed.

Lemma sort_permutation (l1 l2 : list string) : l1 ≡ₚ l2 -> sort l1 = sort l2.
Proof.
  intros Hp. unfold sort.
  apply (@Sorted_unique _ str_le str_le_trans str_le_antisym).
  - apply (@Sorted_merge_sort _ str_le _ str_le_total).
  - apply (@Sorted_merge_sort _ str_le _ str_le_total).
  - rewrite !merge_sort_Permutation. exact Hp.
Qed.

Lemma obj_get_absent (k : string) (o : Obj) :
  ~ In k (List.map fst o) -> obj_get k o = JUndefined.
Proof.
  induction o as [|[k' v] o IH]; [reflexivity|]. cbn. intros Hn.
  destruct (String.eqb_spec k k') as [->|Hne].
  - exfalso. apply Hn. left. reflexivity.
  - apply IH. intros Hin. apply Hn. right. exact Hin.
Qed.

Lemma obj_get_present (k : string) (v : Json) (o : Obj) :
  NoDup (List.map fst o) -> In (k, v) o -> obj_get k o = v.
Proof.
  induction o as [|[k' v'] o IH]; [intros _ []|].
  cbn [List.map fst]. intros Hnd [Heq | Hin].
  - injection Heq as -> ->. cbn. rewrite String.eqb_refl. reflexivity.
  - apply NoDup_cons in Hnd. destruct Hnd as [Hk Hnd]. cbn.
    destruct (String.eqb_spec k k') as [->|Hne].
    + exfalso. apply Hk. apply list_elem_of_In.
      apply in_map_iff. exists (k', v). split; [reflexivity | exact Hin].
    + apply IH; assumption.
Qed.

(** Objects with the same properties answer every read alike. *)
Lemma obj_get_permutation (a b : Obj) :
  NoDup (List.map fst b) -> a ≡ₚ b -> forall k, obj_get k a = obj_get k b.
Proof.
  intros Hb Hp k.
  assert (Ha : NoDup (List.map fst a)).
  { rewrite (fmap_Permutation fst a b Hp). exact Hb. }
  destruct (in_dec string_dec k (List.map fst b)) as [Hin | Hn].
  - apply in_map_iff in Hin. destruct Hin as ([k' v] & Hk & Hin). cbn in Hk. subst k'.
    rewrite (obj_get_present k v b Hb Hin).
    apply obj_get_present; [exact Ha|].
    apply list_elem_of_In. rewrite Hp. apply list_elem_of_In. exact Hin.
  - rewrite (obj_get_absent k b Hn). apply obj_get_absent.
    intros Hin. apply Hn. apply list_elem_of_In.
    rewrite <- (fmap_Permutation fst a b Hp). apply list_elem_of_In. exact Hin.
Qed.

Lemma fold_left_pointwise {A B : Type} (f g : A -> B -> A) (l : list B) :
  (forall a b, f a b = g a b) -> forall a, fold_left f l a = fold_left g l a.
Proof.
  intros H. induction l as [|b l IH]; intros a; [reflexivity|].
  cbn. rewrite H. apply IH.
Qed.

(** Canonical keys: the same parameters, given in any order, make the same
    key. *)
Lemma buildKey_permutation (ty : string) (a b : Obj) :
  NoDup (List.map fst b) -> a ≡ₚ b -> buildKey ty a = buildKey ty b.
Proof.
  intros Hb Hp. unfold buildKey, Object_keys.
  rewrite (sort_permutation (List.map fst a) (List.map fst b))
    by (apply (fmap_Permutation fst); exact Hp).
  rewrite (fold_left_pointwise
             (fun acc key => obj_set key (obj_get key a) acc)
             (fun acc key => obj_set key (obj_get key b) acc)).
  - reflexivity.
  - intros acc k. rewrite (obj_get_permutation a b Hb Hp k). reflexivity.
Qed.

Example buildKey_two_orders :
  buildKey "l2Book" [("coin", JStr "BTC"); ("nSigFigs", JNum 5); ("nLevels", JNum 50)]
  = buildKey "l2Book" [("nLevels", JNum 50); ("coin", JStr "BTC"); ("nSigFigs", JNum 5)].
Proof. vm_compute. reflexivity. Qed.

(** ** Routing *)

Lemma set_delivered_id (w : World) : set_delivered (delivered w) w = w.
Proof. destruct w. reflexivity. Qed.

Lemma set_delivered_twice (a b : list (Callback * Json)) (w : World) :
  set_delivered a (set_delivered b w) = set_delivered a w.
Proof. reflexivity. Qed.

Lemma some_coin_safe (items : list Json) (coin : Json) :
  Forall (fun item => coin_of item <> None) items ->
  exists b, some_coin items coin = Some b /\
            (b = true <-> exists item c, In item items /\ coin_of item = Some c /\
                                         strict_equal c coin = true).
Proof.
  induction 1 as [|item items Hitem _ IH].
  - exists false. split; [reflexivity|]. split; [discriminate|].
    intros (item & c & [] & _).
  - cbn [some_coin]. destruct (coin_of item) as [c|] eqn:Ec; [|contradiction].
    destruct (strict_equal c coin) eqn:Es.
    + exists true. split; [reflexivity|]. split; [|reflexivity].
      intros _. exists item, c. split; [left; reflexivity|]. split; assumption.
    + destruct IH as (b & Hb & Hiff). exists b. split; [exact Hb|].
      rewrite Hiff. split.
      * intros (i & c' & Hin & Hc & Hs). exists i, c'. split; [right; exact Hin|].
        split; assumption.
      * intros (i & c' & [Heq | Hin] & Hc & Hs).
        -- subst i. congruence.
        -- exists i, c'. split; [exact Hin|]. split; assumption.
Qed.

(** The match predicate decides [receives]. *)
Lemma matchesChannel_receives (sub : Subscription) (chan : string) (d : Json) :
  payload_safe d ->
  exists b, matchesChannel sub chan d = Some b /\ (b = true <-> receives sub chan d).
Proof.
  intros Hsafe. unfold matchesChannel, receives, has_coin_filter.
  fold (coin_filter sub).
  destruct (String.eqb_spec (type sub) chan) as [Heq|Hne]; cbn [negb].
  2:{ exists false. split; [reflexivity|]. split; [discriminate|].
      intros [H _]. contradiction. }
  destruct (truthy (coin_filter sub)) eqn:Ht.
  2:{ exists true. split; [reflexivity|]. split; [|reflexivity].
      intros _. split; [exact Heq|]. left. discriminate. }
  destruct d as [| |b|n|s|items|props];
    try (exists true; split; [reflexivity|]; split; [|reflexivity];
         intros _; split; [exact Heq|]; right; left; exact I).
  - destruct (some_coin_safe items (coin_filter sub) Hsafe) as (b & Hb & Hiff).
    exists b. split; [exact Hb|]. rewrite Hiff. split.
    + intros (item & c & Hin & Hc & Hs). split; [exact Heq|].
      right; right; right. exists items, item, c. repeat split; assumption.
    + intros [_ [Hn | [[] | [(props & Hd & _) | (its & item & c & Hd & Hin & Hc & Hs)]]]].
      * exfalso. apply Hn. reflexivity.
      * discriminate Hd.
      * injection Hd as <-. exists item, c. repeat split; assumption.
  - exists (strict_equal (obj_get "coin" props) (coin_filter sub)).
    split; [reflexivity|]. split.
    + intros Hs. split; [exact Heq|]. right; right; left.
      exists props. split; [reflexivity | exact Hs].
    + intros [_ [Hn | [[] | [(props' & Hd & Hs) | (its & item & c & Hd & _)]]]].
      * exfalso. apply Hn. reflexivity.
      * injection Hd as <-. exact Hs.
      * discriminate Hd.
Qed.

Section RoutingFacts.

Variable throws : Callback -> Json -> bool.

Lemma upto_throw_app (a b : list (Callback * Json)) :
  upto_throw throws (a ++ b)
  = if some_throws throws a then upto_throw throws a else a ++ upto_throw throws b.
Proof.
  induction a as [|inv a IH]; [reflexivity|].
  cbn [upto_throw some_throws existsb app].
  destruct (throws (fst inv) (snd inv)); cbn [orb]; [reflexivity|].
  fold (some_throws throws a). rewrite IH. destruct (some_throws throws a); reflexivity.
Qed.

Lemma call_all_spec (cbs : list Callback) (d : Json) : forall w,
  call_all throws cbs d w
  = (set_delivered
       (delivered w ++ upto_throw throws (List.map (fun cb => (cb, d)) cbs)) w,
     some_throws throws (List.map (fun cb => (cb, d)) cbs)).
Proof.
  induction cbs as [|cb cbs IH]; intros w.
  - cbn. rewrite app_nil_r, set_delivered_id. reflexivity.
  - cbn [call_all List.map upto_throw some_throws existsb fst snd].
    destruct (throws cb d); cbn [orb]; [reflexivity|].
    rewrite IH. cbn [delivered set_delivered]. rewrite set_delivered_twice.
    rewrite <- app_assoc. reflexivity.
Qed.

Lemma upto_throw_none (l : list (Callback * Json)) :
  some_throws throws l = false -> upto_throw throws l = l.
Proof.
  induction l as [|inv l IH]; [reflexivity|].
  cbn [some_throws existsb upto_throw].
  destruct (throws (fst inv) (snd inv)); cbn [orb]; [discriminate|].
  intros H. rewrite (IH H). reflexivity.
Qed.

Lemma route_entries_spec (chan : string) (d : Json) (Hsafe : payload_safe d)
      (entries : list (string * Subscription)) : forall w,
  route_entries throws entries chan d w
  = (set_delivered (delivered w ++ upto_throw throws (fanout entries chan d)) w,
     some_throws throws (fanout entries chan d)).
Proof.
  induction entries as [|entry entries IH]; intros w.
  - cbn. rewrite app_nil_r, set_delivered_id. reflexivity.
  - cbn [route_entries]. unfold fanout. cbn [List.flat_map]. fold (fanout entries chan d).
    unfold matches.
    destruct (matchesChannel_receives (snd entry) chan d Hsafe) as (b & Hb & _).
    rewrite Hb. destruct b.
    + rewrite call_all_spec. fold (deliveries_to (snd entry) d).
      rewrite upto_throw_app. unfold some_throws at 3. rewrite existsb_app.
      fold (some_throws throws (deliveries_to (snd entry) d)).
      fold (some_throws throws (fanout entries chan d)).
      destruct (some_throws throws (deliveries_to (snd entry) d)) eqn:Et; [reflexivity|].
      rewrite (upto_throw_none _ Et), IH. cbn [delivered set_delivered orb].
      rewrite set_delivered_twice, <- app_assoc. reflexivity.
    + rewrite IH. reflexivity.
Qed.

Lemma some_throws_never (l : list (Callback * Json)) :
  (forall cb d, throws cb d = false) -> some_throws throws l = false.
Proof.
  intros H. induction l as [|inv l IH]; [reflexivity|].
  cbn [some_throws existsb]. rewrite H. exact IH.
Qed.

End RoutingFacts.




(** C7, as amended. When no callback throws and an array payload has no
    [null] element, a registered subscription receives the payload, whole
    and on every one of its callbacks, exactly when its type equals the
    channel and either it has no coin filter, or the payload is not an
    object (a string, a number, a boolean, [null]), or the payload is an
    object whose coin equals the filter, or it is an array some element of
    which has a coin equal to the filter. *)
Theorem routeMessage_receives
        (throws : Callback -> Json -> bool) (w : World) (m : WebSocketMessage) :
  payload_safe (data m) ->
  (forall cb d, throws cb d = false) ->
  (forall sub, exists b,
     matchesChannel sub (channel m) (data m) = Some b /\
     (b = true <-> receives sub (channel m) (data m))) /\
  exists per : list (list (Callback * Json)),
    routeMessage throws m w = (set_delivered (delivered w ++ concat per) w, false) /\
    Forall2
      (fun entry ds =>
         (receives (snd entry) (channel m) (data m) /\
          ds = deliveries_to (snd entry) (data m)) \/
         (~ receives (snd entry) (channel m) (data m) /\ ds = []))
      (subscriptions w) per.
Proof.
  intros Hsafe Hno. split.
  - intros sub. apply matchesChannel_receives. exact Hsafe.
  - exists (List.map (fun entry => if matches (snd entry) (channel m) (data m)
                                   then deliveries_to (snd entry) (data m) else [])
                     (subscriptions w)).
    split.
    + unfold routeMessage. rewrite (route_entries_spec throws _ _ Hsafe).
      rewrite (some_throws_never throws _ Hno).
      rewrite (upto_throw_none throws _ (some_throws_never throws _ Hno)).
      unfold fanout. rewrite flat_map_concat_map. reflexivity.
    + induction (subscriptions w) as [|entry entries IH]; constructor; [|exact IH].
      unfold matches.
      destruct (matchesChannel_receives (snd entry) (channel m) (data m) Hsafe)
        as (b & Hb & Hiff).
      rewrite Hb. destruct b.
      * left. split; [apply Hiff; reflexivity | reflexivity].
      * right. split; [|reflexivity]. intros Hr. apply Hiff in Hr. discriminate.
Qed.

Lemma routeMessage_receives_witness :
  payload_safe (JArr [btc_trade]) /\
  (forall cb d, never_throws cb d = false) /\
  (forall sub, exists b,
     matchesChannel sub "trades" (JArr [btc_trade]) = Some b /\
     (b = true <-> receives sub "trades" (JArr [btc_trade]))) /\
  exists per : list (list (Callback * Json)),
    routeMessage never_throws (mkMessage "trades" (JArr [btc_trade]))
      (set_subscriptions [("k", mkSubscription "trades" btc [1; 2])] (initial true))
    = (set_delivered (concat per)
         (set_subscriptions [("k", mkSubscription "trades" btc [1; 2])] (initial true)),
       false) /\
    Forall2
      (fun entry ds =>
         (receives (snd entry) "trades" (JArr [btc_trade]) /\
          ds = deliveries_to (snd entry) (JArr [btc_trade])) \/
         (~ receives (snd entry) "trades" (JArr [btc_trade]) /\ ds = []))
      [("k", mkSubscription "trades" btc [1; 2])] per.
Proof.
  assert (Hsafe : payload_safe (JArr [btc_trade])).
  { repeat constructor. discriminate. }
  split; [exact Hsafe|]. split; [reflexivity|].
  exact (routeMessage_receives never_throws
           (set_subscriptions [("k", mkSubscription "trades" btc [1; 2])] (initial true))
           (mkMessage "trades" (JArr [btc_trade])) Hsafe (fun _ _ => eq_refl)).
Defined.

(** A subscription filtered on the coin BTC receives a string payload on its
    channel, which is neither an object nor an array with that coin. *)
Lemma string_payload_passes_filter :
  option_map (fun st => delivered (fst st))
    (run never_throws
       [ call_subscribe "trades" btc 7;
         ev_open 0;
         ev_message 0 (Some (mkMessage "trades" (JStr "ping"))) ]
       (initial true, []))
  = Some [(7, JStr "ping")] /\
  ~ receives_as_specified (mkSubscription "trades" btc [7]) "trades" (JStr "ping").
Proof.
  split; [vm_compute; reflexivity|].
  intros [_ [Hn | [(props & Hd & _) | (items & item & c & Hd & _)]]].
  - apply Hn. reflexivity.
  - discriminate Hd.
  - discriminate Hd.
Qed.



(** ** Sending to every registered topic *)

Lemma send_open (message : OutgoingMessage) (w : World) (sid : nat) :
  socket w = Some sid -> readyState sid w = OPEN ->
  send message w = set_wire (wire w ++ [(sid, message)]) w.
Proof.
  intros Hs Hr. unfold send, socket_open. rewrite Hs, Hr. reflexivity.
Qed.

Lemma send_closed (message : OutgoingMessage) (w : World) :
  socket_open w = false -> send message w = w.
Proof. intros H. unfold send. rewrite H. reflexivity. Qed.





(** ** The visibility gate *)




(** ** The subscription map and the consumer sets *)

Lemma map_get_set_eq (key : string) (s : Subscription) (m : list (string * Subscription)) :
  map_get key (map_set key s m) = Some s.
Proof.
  induction m as [|[k s'] m IH]; cbn.
  - rewrite String.eqb_refl. reflexivity.
  - destruct (String.eqb key k) eqn:E; cbn; rewrite E; [reflexivity | exact IH].
Qed.

Lemma map_get_delete_eq (key : string) (m : list (string * Subscription)) :
  map_get key (map_delete key m) = None.
Proof.
  unfold map_delete. induction m as [|[k s] m IH]; [reflexivity|].
  cbn. destruct (String.eqb key k) eqn:E; cbn; [exact IH|].
  rewrite E. exact IH.
Qed.

Lemma set_add_In (cb : Callback) (s : list Callback) : In cb (set_add cb s).
Proof.
  unfold set_add. destruct (existsb (Nat.eqb cb) s) eqn:E.
  - apply existsb_exists in E. destruct E as (x & Hin & Hx).
    apply Nat.eqb_eq in Hx. subst x. exact Hin.
  - apply in_or_app. right. left. reflexivity.
Qed.




Lemma set_delete_In (cb x : Callback) (s : list Callback) :
  In x (set_delete cb s) <-> In x s /\ x <> cb.
Proof.
  unfold set_delete. rewrite filter_In. split; intros [H1 H2]; split; try exact H1.
  - intros ->. rewrite Nat.eqb_refl in H2. discriminate H2.
  - apply Nat.eqb_neq in H2. rewrite H2. reflexivity.
Qed.

(** ** Frame properties of the methods *)

Lemma send_subscriptions (message : OutgoingMessage) (w : World) :
  subscriptions (send message w) = subscriptions w.
Proof. unfold send. destruct (socket_open w), (socket w); reflexivity. Qed.

Lemma attemptReconnect_subscriptions (w : World) :
  subscriptions (attemptReconnect w) = subscriptions w.
Proof.
  unfold attemptReconnect.
  destruct (paused w); [reflexivity|].
  destruct (maxReconnectAttempts <=? reconnectAttempts w)%nat; reflexivity.
Qed.

Lemma connect_subscriptions (w : World) : subscriptions (connect w) = subscriptions w.
Proof.
  unfold connect. destruct (socket_open w); [reflexivity|].
  cbn [urlValid setStatus]. destruct (urlValid w); [reflexivity|].
  rewrite attemptReconnect_subscriptions. reflexivity.
Qed.

(** The entry of the topic after [subscribe]. *)
Lemma subscribe_entry (ty : string) (ps : Obj) (cb : Callback) (w : World) :
  map_get (buildKey ty ps) (subscriptions (snd (subscribe ty ps cb w)))
  = Some match map_get (buildKey ty ps) (subscriptions w) with
         | Some sub => mkSubscription (type sub) (params sub) (set_add cb (callbacks sub))
         | None => mkSubscription ty ps [cb]
         end.
Proof.
  unfold subscribe. cbn [snd].
  set (w1 := if negb (socket_open w) then connect w else w).
  assert (E1 : subscriptions w1 = subscriptions w).
  { unfold w1. destruct (negb (socket_open w)); [apply connect_subscriptions | reflexivity]. }
  rewrite E1. destruct (map_get (buildKey ty ps) (subscriptions w)) as [sub|].
  - cbn [subscriptions set_subscriptions]. apply map_get_set_eq.
  - match goal with |- context [if ?b then _ else _] => destruct b end.
    + unfold sendSubscribe. rewrite send_subscriptions.
      cbn [subscriptions set_subscriptions]. apply map_get_set_eq.
    + cbn [subscriptions set_subscriptions]. apply map_get_set_eq.
Qed.



(** ** Reference counting *)

Lemma alternating_snoc (n : nat) : forall first,
  alternating first (n + 1)
  = alternating first n ++ [if Nat.even n then first else other_method first].
Proof.
  induction n as [|n IH]; intros first; [reflexivity|].
  cbn [Nat.add alternating app]. rewrite IH. f_equal. f_equal.
  rewrite Nat.even_succ, <- Nat.negb_even.
  destruct (Nat.even n), first; reflexivity.
Qed.

Lemma alternating_length (n : nat) : forall first, length (alternating first n) = n.
Proof. induction n as [|n IH]; intros first; cbn; [reflexivity | rewrite IH; reflexivity]. Qed.

Lemma count_method_methods (m : Method) (msgs : list (nat * OutgoingMessage)) :
  count_method m msgs = count_in m (methods msgs).
Proof.
  unfold count_method, count_in, methods, is_method.
  induction msgs as [|x msgs IH]; [reflexivity|].
  cbn [List.filter List.map]. destruct m, (method (snd x)); cbn [length]; rewrite ?IH; reflexivity.
Qed.

Lemma count_alternating (n : nat) : forall first,
  count_in first (alternating first n)
  = (count_in (other_method first) (alternating first n)
     + if Nat.odd n then 1 else 0)%nat.
Proof.
  induction n as [|n IH]; intros first; [reflexivity|].
  cbn [alternating]. specialize (IH (other_method first)).
  assert (Eo : other_method (other_method first) = first) by (destruct first; reflexivity).
  rewrite Eo in IH. rewrite Nat.odd_succ, <- Nat.negb_odd.
  unfold count_in in *. destruct first; cbn [List.filter length other_method] in *;
    destruct (Nat.odd n); cbn [negb] in *; lia.
Qed.

(** The entry of the topic after a call of a returned function. *)
Lemma unsubscribe_entry (h : Handle) (w : World) :
  map_get (h_key h) (subscriptions (unsubscribe h w))
  = match map_get (h_key h) (subscriptions w) with
    | Some sub =>
        match set_delete (h_callback h) (callbacks sub) with
        | [] => None
        | cbs => Some (mkSubscription (type sub) (params sub) cbs)
        end
    | None => None
    end.
Proof.
  unfold unsubscribe.
  destruct (map_get (h_key h) (subscriptions w)) as [sub|] eqn:E; [|exact E].
  destruct (set_delete (h_callback h) (callbacks sub)) as [|c cs].
  - match goal with |- context [if ?b then _ else _] => destruct b end.
    + unfold sendUnsubscribe. rewrite send_subscriptions.
      cbn [subscriptions set_subscriptions]. apply map_get_delete_eq.
    + cbn [subscriptions set_subscriptions]. apply map_get_delete_eq.
  - cbn [subscriptions set_subscriptions]. apply map_get_set_eq.
Qed.

Lemma open_unpaused_socket_open (sid : nat) (w : World) :
  open_unpaused sid w -> socket_open w = true.
Proof. intros (Hs & Hr & _). unfold socket_open. rewrite Hs, Hr. reflexivity. Qed.

(** What [subscribe] sends, the connection being open and not paused: one
    subscribe when the topic has no entry, nothing otherwise. *)
Lemma subscribe_wire (sid : nat) (ty : string) (ps : Obj) (cb : Callback) (w : World) :
  open_unpaused sid w ->
  open_unpaused sid (snd (subscribe ty ps cb w)) /\
  wire (snd (subscribe ty ps cb w))
  = wire w ++ (if registered (buildKey ty ps) w then []
               else [(sid, mkOutgoing subscribe_method (subscription_of ty ps))]).
Proof.
  intros Hopen. pose proof (open_unpaused_socket_open sid w Hopen) as Ho.
  destruct Hopen as (Hs & Hr & Hp).
  unfold subscribe, registered, map_has. cbn [snd]. rewrite Ho. cbn [negb].
  destruct (map_get (buildKey ty ps) (subscriptions w)) as [sub|].
  - split; [repeat split; assumption|]. cbn. rewrite app_nil_r. reflexivity.
  - set (w' := set_subscriptions _ w).
    assert (Ho' : socket_open w' = true).
    { unfold socket_open. change (socket w') with (socket w).
      change (readyState ?s w') with (readyState s w). rewrite Hs, Hr. reflexivity. }
    rewrite Ho'. change (paused w') with (paused w). rewrite Hp. cbn [negb andb].
    unfold sendSubscribe.
    rewrite (send_open _ w' sid) by assumption.
    split; [repeat split; assumption | reflexivity].
Qed.

(** What a returned function sends, the connection being open: one
    unsubscribe when it removes the last consumer, nothing otherwise. *)
Lemma unsubscribe_wire (sid : nat) (h : Handle) (w : World) :
  open_unpaused sid w ->
  open_unpaused sid (unsubscribe h w) /\
  wire (unsubscribe h w)
  = wire w ++ (if registered (h_key h) w && negb (registered (h_key h) (unsubscribe h w))
               then [(sid, mkOutgoing unsubscribe_method
                                      (subscription_of (h_type h) (h_params h)))]
               else []).
Proof.
  intros Hopen. pose proof (unsubscribe_entry h w) as He.
  destruct Hopen as (Hs & Hr & Hp).
  unfold registered, map_has. rewrite He. unfold unsubscribe.
  destruct (map_get (h_key h) (subscriptions w)) as [sub|].
  - destruct (set_delete (h_callback h) (callbacks sub)) as [|c cs].
    + set (w' := set_subscriptions _ w).
      assert (Ho' : socket_open w' = true).
      { unfold socket_open. change (socket w') with (socket w).
        change (readyState ?s w') with (readyState s w). rewrite Hs, Hr. reflexivity. }
      rewrite Ho'. unfold sendUnsubscribe.
      rewrite (send_open _ w' sid) by assumption.
      split; [repeat split; assumption | reflexivity].
    + split; [repeat split; assumption|]. cbn. rewrite app_nil_r. reflexivity.
  - split; [repeat split; assumption|]. cbn. rewrite app_nil_r. reflexivity.
Qed.

Section Topic.

Variable throws : Callback -> Json -> bool.
Variables (ty : string) (ps : Obj) (sid : nat) (w0 : World).
Hypothesis ps_keys : NoDup (List.map fst ps).

Let key : string := buildKey ty ps.

Lemma methods_snoc (msgs : list (nat * OutgoingMessage)) (m : Method) (o : Obj) :
  methods (msgs ++ [(sid, mkOutgoing m o)]) = methods msgs ++ [m].
Proof. unfold methods. rewrite map_app. reflexivity. Qed.

Lemma inv_extend (w w' : World) (hs hs' : list Handle)
      (msgs : list (nat * OutgoingMessage)) (m : Method) (ps' : Obj) (b : bool) :
  topic_inv ty ps sid w0 w hs msgs ->
  open_unpaused sid w' ->
  wire w' = wire w ++ (if b then [(sid, mkOutgoing m (subscription_of ty ps'))] else []) ->
  ps' ≡ₚ ps ->
  Forall (handle_of ty ps) hs' ->
  (b = true -> m = if registered key w then unsubscribe_method else subscribe_method) ->
  registered key w' = xorb b (registered key w) ->
  (forall sub, map_get key (subscriptions w') = Some sub -> callbacks sub <> []) ->
  exists msgs',
    topic_inv ty ps sid w0 w' hs' msgs' /\
    (msgs' = msgs \/ exists x, msgs' = msgs ++ [x]).
Proof.
  intros (_ & Hw & Hm & Ha & _ & Hr & _) Hopen Hw' Hps Hhs Hb Hr' Hne.
  fold key in Hr. destruct b.
  - exists (msgs ++ [(sid, mkOutgoing m (subscription_of ty ps'))]).
    split; [|right; eexists; reflexivity].
    repeat split.
    + apply Hopen.
    + apply Hopen.
    + apply Hopen.
    + rewrite Hw', Hw, <- app_assoc. reflexivity.
    + rewrite methods_snoc, Hm, length_app. cbn [length].
      rewrite alternating_snoc. f_equal. f_equal.
      rewrite (Hb eq_refl), Hr, <- Nat.negb_even.
      destruct (Nat.even (length msgs)); reflexivity.
    + apply Forall_app. split; [exact Ha|]. constructor; [|constructor].
      split; [reflexivity|]. exists ps'. split; [exact Hps | reflexivity].
    + exact Hhs.
    + fold key. rewrite Hr', Hr, length_app. cbn [length].
      rewrite Nat.add_1_r, Nat.odd_succ, <- Nat.negb_odd.
      destruct (Nat.odd (length msgs)); reflexivity.
    + exact Hne.
  - exists msgs. split; [|left; reflexivity].
    repeat split.
    + apply Hopen.
    + apply Hopen.
    + apply Hopen.
    + rewrite Hw', Hw, app_nil_r. reflexivity.
    + exact Hm.
    + exact Ha.
    + exact Hhs.
    + fold key. rewrite Hr', Hr. reflexivity.
    + exact Hne.
Qed.

(** One call about the topic keeps the invariant and sends at most one
    message. *)
Lemma inv_step (e : Event) (w w' : World) (hs hs' : list Handle)
      (msgs : list (nat * OutgoingMessage)) :
  topic_inv ty ps sid w0 w hs msgs ->
  topic_event ty ps e ->
  step throws e (w, hs) = Some (w', hs') ->
  exists msgs',
    topic_inv ty ps sid w0 w' hs' msgs' /\
    (msgs' = msgs \/ exists x, msgs' = msgs ++ [x]).
Proof.
  intros Hinv He Hstep.
  pose proof Hinv as (Hopen & _ & _ & _ & Hhs & _ & Hne).
  destruct e as [| | | | |ty' ps' cb|i| | | | |]; try (cbn in He; contradiction).
  - (* subscribe *)
    destruct He as [-> Hps].
    assert (Hk : buildKey ty ps' = key) by (apply buildKey_permutation; assumption).
    cbn [step] in Hstep.
    destruct (subscribe ty ps' cb w) as [h w1] eqn:Es.
    injection Hstep as <- <-.
    assert (Eh : h = mkHandle (buildKey ty ps') ty ps' cb).
    { unfold subscribe in Es. injection Es as <- _. reflexivity. }
    assert (Ew : w1 = snd (subscribe ty ps' cb w)) by (rewrite Es; reflexivity).
    destruct (subscribe_wire sid ty ps' cb w Hopen) as [Hopen1 Hwire].
    pose proof (subscribe_entry ty ps' cb w) as Hentry.
    rewrite <- Ew, Hk in Hwire, Hentry. rewrite <- Ew in Hopen1.
    apply (inv_extend w w1 hs (hs ++ [h]) msgs subscribe_method ps'
                      (negb (registered key w))); try assumption.
    + rewrite Hwire. destruct (registered key w); reflexivity.
    + apply Forall_app. split; [exact Hhs|]. constructor; [|constructor].
      rewrite Eh. repeat split; cbn; assumption.
    + intros Hb. destruct (registered key w); [discriminate | reflexivity].
    + unfold registered at 1. unfold map_has. rewrite Hentry.
      destruct (registered key w); reflexivity.
    + intros sub. rewrite Hentry. intros [= <-].
      destruct (map_get key (subscriptions w)) as [old|]; cbn [callbacks].
      * intros E. pose proof (set_add_In cb (callbacks old)) as Hin.
        rewrite E in Hin. destruct Hin.
      * discriminate.
  - (* a returned function *)
    cbn [step] in Hstep. destruct (nth_error hs i) as [h|] eqn:Eh; [|discriminate].
    injection Hstep as <- <-.
    assert (Hh : handle_of ty ps h).
    { apply nth_error_In in Eh. rewrite Forall_forall in Hhs.
      apply Hhs. apply list_elem_of_In. exact Eh. }
    destruct Hh as (Hk & Ht & Hps). fold key in Hk.
    destruct (unsubscribe_wire sid h w Hopen) as [Hopen1 Hwire].
    pose proof (unsubscribe_entry h w) as Hentry.
    rewrite Hk, Ht in *.
    apply (inv_extend w (unsubscribe h w) hs hs msgs unsubscribe_method (h_params h)
                      (registered key w && negb (registered key (unsubscribe h w))));
      try assumption.
    + intros Hb. destruct (registered key w); [reflexivity | discriminate].
    + unfold registered, map_has. rewrite Hentry.
      destruct (map_get key (subscriptions w)) as [old|]; [|reflexivity].
      destruct (set_delete (h_callback h) (callbacks old)); reflexivity.
    + intros sub. rewrite Hentry.
      destruct (map_get key (subscriptions w)) as [old|]; [|discriminate].
      destruct (set_delete (h_callback h) (callbacks old)) as [|c cs]; [discriminate|].
      intros [= <-]. discriminate.
Qed.

(** A sequence of calls about the topic keeps the invariant. *)
Lemma inv_run (es : list Event) : forall (w w' : World) (hs hs' : list Handle)
      (msgs : list (nat * OutgoingMessage)),
  topic_inv ty ps sid w0 w hs msgs ->
  Forall (topic_event ty ps) es ->
  run throws es (w, hs) = Some (w', hs') ->
  exists msgs', topic_inv ty ps sid w0 w' hs' msgs'.
Proof.
  induction es as [|e es IH]; intros w w' hs hs' msgs Hinv Hes Hrun.
  - injection Hrun as <- <-. exists msgs. exact Hinv.
  - apply Forall_cons in Hes. destruct Hes as [He Hes].
    cbn [run] in Hrun.
    destruct (step throws e (w, hs)) as [[w1 hs1]|] eqn:Hstep; [|discriminate].
    destruct (inv_step e w w1 hs hs1 msgs Hinv He Hstep) as (msgs1 & Hinv1 & _).
    exact (IH w1 w' hs1 hs' msgs1 Hinv1 Hes Hrun).
Qed.

(** While the topic stays registered, nothing more is sent until, at most,
    one last message. *)
Lemma inv_run_registered (es : list Event) : forall (w w' : World) (hs hs' : list Handle)
      (msgs : list (nat * OutgoingMessage)),
  topic_inv ty ps sid w0 w hs msgs ->
  Forall (topic_event ty ps) es ->
  registered key w = true ->
  (forall n, (0 < n < length es)%nat ->
     exists st', run throws (firstn n es) (w, hs) = Some st' /\
                 registered key (fst st') = true) ->
  run throws es (w, hs) = Some (w', hs') ->
  exists msgs',
    topic_inv ty ps sid w0 w' hs' msgs' /\
    (msgs' = msgs \/ exists x, msgs' = msgs ++ [x]).
Proof.
  induction es as [|e es IH]; intros w w' hs hs' msgs Hinv Hes Hreg Hbetween Hrun.
  - injection Hrun as <- <-. exists msgs. split; [exact Hinv | left; reflexivity].
  - apply Forall_cons in Hes. destruct Hes as [He Hes].
    cbn [run] in Hrun.
    destruct (step throws e (w, hs)) as [[w1 hs1]|] eqn:Hstep; [|discriminate].
    destruct (inv_step e w w1 hs hs1 msgs Hinv He Hstep) as (msgs1 & Hinv1 & Hmsgs1).
    destruct es as [|e2 es].
    + injection Hrun as <- <-. exists msgs1. split; assumption.
    + assert (Hreg1 : registered key w1 = true).
      { destruct (Hbetween 1%nat) as (st' & Hr & Hreg'); [cbn; lia|].
        cbn [firstn run] in Hr. rewrite Hstep in Hr. injection Hr as <-. exact Hreg'. }
      assert (E : msgs1 = msgs).
      { destruct Hmsgs1 as [E | [x E]]; [exact E|]. exfalso.
        destruct Hinv as (_ & _ & _ & _ & _ & Hr & _).
        destruct Hinv1 as (_ & _ & _ & _ & _ & Hr1 & _).
        fold key in Hr, Hr1. rewrite Hreg in Hr. rewrite Hreg1 in Hr1.
        rewrite E, length_app, Nat.add_1_r, Nat.odd_succ, <- Nat.negb_odd, <- Hr in Hr1.
        discriminate Hr1. }
      subst msgs1.
      apply (IH w1 w' hs1 hs' msgs Hinv1 Hes Hreg1); [|exact Hrun].
      intros n Hn. destruct (Hbetween (S n)) as (st' & Hr & Hreg'); [cbn in *; lia|].
      exists st'. split; [|exact Hreg'].
      cbn [firstn run] in Hr. rewrite Hstep in Hr. exact Hr.
Qed.

Lemma run_handles_length (es : list Event) : forall (w w' : World) (hs hs' : list Handle),
  run throws es (w, hs) = Some (w', hs') -> (length hs <= length hs')%nat.
Proof.
  induction es as [|e es IH]; intros w w' hs hs' Hrun.
  - injection Hrun as <- <-. lia.
  - cbn [run] in Hrun.
    destruct (step throws e (w, hs)) as [[w1 hs1]|] eqn:Hstep; [|discriminate].
    apply IH in Hrun.
    assert (length hs <= length hs1)%nat; [|lia].
    destruct e; cbn [step] in Hstep;
      repeat match type of Hstep with
             | (if ?b then _ else _) = _ => destruct b
             | match ?x with _ => _ end = _ => destruct x
             end;
      try discriminate; injection Hstep as <- <-; rewrite ?length_app; cbn; lia.
Qed.

Lemma set_add_elim (cb x : Callback) (s : list Callback) :
  In x (set_add cb s) -> x = cb \/ In x s.
Proof.
  unfold set_add. destruct (existsb (Nat.eqb cb) s); [right; assumption|].
  intros H. apply in_app_or in H. destruct H as [H | [<- | []]]; auto.
Qed.

(** Every consumer of the topic holds a returned function that is still to
    be called; when the calls are over, no consumer is left. *)
Lemma released_run (es : list Event) : forall (w w' : World) (hs hs' : list Handle),
  Forall (topic_event ty ps) es ->
  Forall (handle_of ty ps) hs ->
  run throws es (w, hs) = Some (w', hs') ->
  (forall i, (length hs <= i < length hs')%nat -> In (call_unsubscribe i) es) ->
  (forall sub cb, map_get key (subscriptions w) = Some sub -> In cb (callbacks sub) ->
     exists i h, nth_error hs i = Some h /\ h_callback h = cb /\
                 In (call_unsubscribe i) es) ->
  forall sub, map_get key (subscriptions w') = Some sub -> callbacks sub = [].
Proof.
  induction es as [|e es IH]; intros w w' hs hs' Hes Hhs Hrun Hnew Hold.
  - injection Hrun as <- <-. intros sub Hsub.
    destruct (callbacks sub) as [|c cs] eqn:Ec; [reflexivity|]. exfalso.
    destruct (Hold sub c Hsub) as (i & h & _ & _ & []). rewrite Ec. left. reflexivity.
  - apply Forall_cons in Hes. destruct Hes as [He Hes].
    cbn [run] in Hrun.
    destruct (step throws e (w, hs)) as [[w1 hs1]|] eqn:Hstep; [|discriminate].
    pose proof (run_handles_length es w1 w' hs1 hs' Hrun) as Hlen.
    destruct e as [| | | | |ty' ps' cb|i0| | | | |]; try (cbn in He; contradiction).
    + destruct He as [-> Hps].
      assert (Hk : buildKey ty ps' = key) by (apply buildKey_permutation; assumption).
      cbn [step] in Hstep.
      destruct (subscribe ty ps' cb w) as [h w2] eqn:Es.
      injection Hstep as <- <-.
      assert (Eh : h = mkHandle (buildKey ty ps') ty ps' cb).
      { unfold subscribe in Es. injection Es as <- _. reflexivity. }
      assert (Ew : w2 = snd (subscribe ty ps' cb w)) by (rewrite Es; reflexivity).
      pose proof (subscribe_entry ty ps' cb w) as Hentry.
      rewrite <- Ew, Hk in Hentry.
      rewrite length_app in Hlen. cbn [length] in Hlen.
      apply (IH w2 w' (hs ++ [h]) hs' Hes); [| exact Hrun | |].
      * apply Forall_app. split; [exact Hhs|]. constructor; [|constructor].
        rewrite Eh. repeat split; cbn; assumption.
      * intros i Hi. rewrite length_app in Hi. cbn [length] in Hi.
        destruct (Hnew i) as [Habs | Hin]; [lia | discriminate Habs | exact Hin].
      * intros sub c. rewrite Hentry. intros [= <-] Hc.
        assert (Hcase : c = cb \/
                        exists old, map_get key (subscriptions w) = Some old /\
                                    In c (callbacks old)).
        { destruct (map_get key (subscriptions w)) as [old|]; cbn [callbacks] in Hc.
          - apply set_add_elim in Hc. destruct Hc as [-> | Hc]; [left; reflexivity|].
            right. exists old. split; [reflexivity | exact Hc].
          - destruct Hc as [<- | []]. left. reflexivity. }
        destruct Hcase as [-> | (old & Hold1 & Hold2)].
        -- exists (length hs), h. split; [|split].
           ++ rewrite nth_error_app2 by lia. rewrite Nat.sub_diag. reflexivity.
           ++ rewrite Eh. reflexivity.
           ++ destruct (Hnew (length hs)) as [Habs | Hin];
                [lia | discriminate Habs | exact Hin].
        -- destruct (Hold old c Hold1 Hold2) as (i & h' & Hn & Hcb & Hin).
           exists i, h'. split; [|split].
           ++ rewrite nth_error_app1; [exact Hn|].
              apply nth_error_Some. congruence.
           ++ exact Hcb.
           ++ destruct Hin as [Habs | Hin]; [discriminate Habs | exact Hin].
    + cbn [step] in Hstep. destruct (nth_error hs i0) as [h0|] eqn:Eh0; [|discriminate].
      injection Hstep as <- <-.
      assert (Hh : handle_of ty ps h0).
      { apply nth_error_In in Eh0. rewrite Forall_forall in Hhs.
        apply Hhs. apply list_elem_of_In. exact Eh0. }
      destruct Hh as (Hk & _ & _). fold key in Hk.
      pose proof (unsubscribe_entry h0 w) as Hentry. rewrite Hk in Hentry.
      assert (Hi0 : (i0 < length hs)%nat) by (apply nth_error_Some; congruence).
      apply (IH (unsubscribe h0 w) w' hs hs' Hes Hhs Hrun).
      * intros i Hi. destruct (Hnew i Hi) as [Habs | Hin]; [|exact Hin].
        injection Habs as ->. lia.
      * intros sub c. rewrite Hentry.
        destruct (map_get key (subscriptions w)) as [old|] eqn:Eold; [|discriminate].
        destruct (set_delete (h_callback h0) (callbacks old)) as [|c1 cs] eqn:Ed;
          [discriminate|].
        intros [= <-] Hc. cbn [callbacks] in Hc. rewrite <- Ed in Hc.
        apply set_delete_In in Hc. destruct Hc as [Hc Hne].
        destruct (Hold old c eq_refl Hc) as (i & h' & Hn & Hcb & Hin).
        exists i, h'. split; [exact Hn|]. split; [exact Hcb|].
        destruct Hin as [Habs | Hin]; [|exact Hin].
        injection Habs as ->. rewrite Hn in Eh0. injection Eh0 as Heq.
        exfalso. congruence.
Qed.

End Topic.

Lemma registered_false_get (key : string) (w : World) :
  registered key w = false -> map_get key (subscriptions w) = None.
Proof.
  unfold registered, map_has.
  destruct (map_get key (subscriptions w)); [discriminate | reflexivity].
Qed.

(** C1, as amended. For the calls about one topic, with the parameters given
    in any key order, made while the connection is open and not paused and
    starting with the topic unregistered: the key is the same for every
    order of the parameters; the wire messages sent are all about the topic
    and alternate subscribe, unsubscribe, subscribe, ..., one subscribe for
    each time the consumer set leaves the empty state and one unsubscribe for
    each time it returns to it, so that there is one more subscribe than
    unsubscribes exactly while the topic is registered; once every returned
    function has been called the topic is unregistered; and when the topic
    stays registered between the first and the last call, exactly one
    subscribe is sent, and exactly one unsubscribe if the topic is
    unregistered at the end (none otherwise). *)
Theorem refcount_wire_messages
        (throws : Callback -> Json -> bool) (ty : string) (ps : Obj) (sid : nat)
        (w w' : World) (es : list Event) (hs' : list Handle) :
  NoDup (List.map fst ps) ->
  open_unpaused sid w ->
  registered (buildKey ty ps) w = false ->
  Forall (topic_event ty ps) es ->
  run throws es (w, []) = Some (w', hs') ->
  (forall ps', ps' ≡ₚ ps -> buildKey ty ps' = buildKey ty ps) /\
  exists msgs,
    wire w' = wire w ++ msgs /\
    Forall (about_topic ty ps sid) msgs /\
    methods msgs = alternating subscribe_method (length msgs) /\
    count_method subscribe_method msgs
    = (count_method unsubscribe_method msgs
       + if registered (buildKey ty ps) w' then 1 else 0)%nat /\
    (all_released es hs' -> registered (buildKey ty ps) w' = false) /\
    (es <> [] -> registered_between throws (buildKey ty ps) es (w, []) ->
     count_method subscribe_method msgs = 1%nat /\
     count_method unsubscribe_method msgs
     = if registered (buildKey ty ps) w' then 0%nat else 1%nat).
Proof.
  intros Hnd Hopen Hunreg Hes Hrun.
  split; [intros ps' Hps; apply buildKey_permutation; assumption|].
  set (key := buildKey ty ps) in *.
  assert (Hinv0 : topic_inv ty ps sid w w [] []).
  { repeat split; try apply Hopen; try constructor.
    - rewrite app_nil_r. reflexivity.
    - exact Hunreg.
    - intros sub Hsub. fold key in Hsub.
      rewrite (registered_false_get key w Hunreg) in Hsub. discriminate Hsub. }
  destruct (inv_run throws ty ps sid w Hnd es w w' [] hs' [] Hinv0 Hes Hrun)
    as (msgs & Hinv).
  pose proof Hinv as (_ & Hwire & Hmeth & Habout & _ & Hreg & Hne).
  fold key in Hreg, Hne.
  assert (Hcount : forall m, count_method m msgs
                             = count_in m (alternating subscribe_method (length msgs))).
  { intros m. rewrite count_method_methods, Hmeth. reflexivity. }
  exists msgs. split; [exact Hwire|]. split; [exact Habout|]. split; [exact Hmeth|].
  split; [|split].
  - rewrite !Hcount, Hreg.
    exact (count_alternating (length msgs) subscribe_method).
  - intros Hall.
    destruct (map_get key (subscriptions w')) as [sub|] eqn:Esub.
    + exfalso. apply (Hne sub eq_refl).
      apply (released_run throws ty ps Hnd es w w' [] hs' Hes ltac:(constructor) Hrun).
      * intros i [_ Hi]. apply Hall. exact Hi.
      * intros sub0 cb Hsub0. fold key in Hsub0.
        rewrite (registered_false_get key w Hunreg) in Hsub0. discriminate Hsub0.
      * exact Esub.
    + unfold registered, map_has. rewrite Esub. reflexivity.
  - intros Hnonempty Hbetween.
    destruct es as [|e es]; [contradiction|].
    apply Forall_cons in Hes. destruct Hes as [He Hes].
    cbn [run] in Hrun.
    destruct (step throws e (w, [])) as [[w1 hs1]|] eqn:Hstep; [|discriminate].
    destruct (inv_step throws ty ps sid w Hnd e w w1 [] hs1 [] Hinv0 He Hstep)
      as (msgs1 & Hinv1 & Hmsgs1).
    assert (Hreg1 : registered key w1 = true).
    { destruct e as [| | | | |ty' ps' cb|i| | | | |]; try (cbn in He; contradiction).
      - destruct He as [-> Hps]. cbn [step] in Hstep.
        destruct (subscribe ty ps' cb w) as [h w2] eqn:Es.
        injection Hstep as <- <-.
        pose proof (subscribe_entry ty ps' cb w) as Hentry.
        rewrite Es in Hentry. cbn [snd] in Hentry.
        rewrite (buildKey_permutation ty ps' ps Hnd Hps) in Hentry. fold key in Hentry.
        unfold registered, map_has. rewrite Hentry. reflexivity.
      - cbn [step] in Hstep. destruct i; discriminate Hstep. }
    assert (Hbetween1 : forall n, (0 < n < length es)%nat ->
              exists st', run throws (firstn n es) (w1, hs1) = Some st' /\
                          registered key (fst st') = true).
    { intros n Hn. destruct (Hbetween (S n)) as (st' & Hr & Hreg'); [cbn; lia|].
      exists st'. split; [|exact Hreg'].
      cbn [firstn run] in Hr. rewrite Hstep in Hr. exact Hr. }
    destruct (inv_run_registered throws ty ps sid w Hnd es w1 w' hs1 hs' msgs1
                Hinv1 Hes Hreg1 Hbetween1 Hrun) as (msgs2 & Hinv2 & Hmsgs2).
    assert (E : msgs2 = msgs).
    { destruct Hinv2 as (_ & Hwire2 & _). rewrite Hwire in Hwire2.
      apply app_inv_head in Hwire2. symmetry. exact Hwire2. }
    subst msgs2.
    assert (Hlen1 : length msgs1 = 1%nat).
    { destruct Hinv1 as (_ & _ & _ & _ & _ & Hr1 & _). fold key in Hr1.
      rewrite Hreg1 in Hr1.
      destruct Hmsgs1 as [-> | [x ->]]; [discriminate Hr1 | reflexivity]. }
    assert (Hlen : length msgs = 1%nat \/ length msgs = 2%nat).
    { destruct Hmsgs2 as [-> | [x ->]]; [left; exact Hlen1|].
      right. rewrite length_app, Hlen1. reflexivity. }
    rewrite !Hcount, Hreg.
    destruct Hlen as [-> | ->]; split; reflexivity.
Qed.

Lemma refcount_wire_messages_witness :
  NoDup (List.map fst twap_params) /\
  open_unpaused 1 sample_connected /\
  registered (buildKey "twap" twap_params) sample_connected = false /\
  Forall (topic_event "twap" twap_params) twap_calls /\
  run never_throws twap_calls (sample_connected, []) = Some after_twap_calls /\
  exists msgs,
    wire (fst after_twap_calls) = wire sample_connected ++ msgs /\
    methods msgs = alternating subscribe_method (length msgs) /\
    registered (buildKey "twap" twap_params) (fst after_twap_calls) = false /\
    count_method subscribe_method msgs = 1%nat /\
    count_method unsubscribe_method msgs = 1%nat.
Proof.
  assert (Hnd : NoDup (List.map fst twap_params)).
  { apply NoDup_ListNoDup. repeat constructor; cbn; intuition discriminate. }
  assert (Hopen : open_unpaused 1 sample_connected) by (repeat split).
  assert (Hunreg : registered (buildKey "twap" twap_params) sample_connected = false)
    by (vm_compute; reflexivity).
  assert (Hes : Forall (topic_event "twap" twap_params) twap_calls).
  { repeat constructor. }
  assert (Hrun : run never_throws twap_calls (sample_connected, [])
                 = Some (fst after_twap_calls, snd after_twap_calls))
    by (vm_compute; reflexivity).
  split; [exact Hnd|]. split; [exact Hopen|]. split; [exact Hunreg|].
  split; [exact Hes|]. split; [vm_compute; reflexivity|].
  destruct (refcount_wire_messages never_throws "twap" twap_params 1
              sample_connected (fst after_twap_calls) twap_calls
              (snd after_twap_calls) Hnd Hopen Hunreg Hes Hrun)
    as (_ & msgs & Hwire & _ & Hmeth & _ & Hall & Hone).
  assert (Hend : registered (buildKey "twap" twap_params) (fst after_twap_calls) = false).
  { apply Hall. intros i Hi. change (length (snd after_twap_calls)) with 2%nat in Hi.
    destruct i as [|[|i]]; [right; right; left; reflexivity
                           | right; right; right; left; reflexivity | lia]. }
  exists msgs. split; [exact Hwire|]. split; [exact Hmeth|]. split; [exact Hend|].
  rewrite Hend in Hone. apply Hone; [discriminate|].
  intros n Hn. change (length twap_calls) with 4%nat in Hn.
  destruct n as [|[|[|[|n]]]]; try lia;
    (eexists; split; [vm_compute; reflexivity | vm_compute; reflexivity]).
Defined.

(** One consumer after the other: every returned function has been called,
    and two subscribes and two unsubscribes have been sent for the topic. *)
Lemma resubscription_sends_again :
  Forall (topic_event "twap" twap_params) twap_calls_in_turn /\
  open_unpaused 1 sample_connected /\
  registered (buildKey "twap" twap_params) sample_connected = false /\
  option_map (fun st => (methods (skipn (length (wire sample_connected)) (wire (fst st))),
                         length (snd st),
                         registered (buildKey "twap" twap_params) (fst st)))
             (run never_throws twap_calls_in_turn (sample_connected, []))
  = Some ([subscribe_method; unsubscribe_method; subscribe_method; unsubscribe_method],
          2%nat, false).
Proof.
  split; [repeat constructor|]. split; [repeat split|].
  split; vm_compute; reflexivity.
Qed.

(** ** Reconnection with backoff *)







Lemma fold_send_frame {A : Type} (P : World -> A) (f : string * Subscription -> OutgoingMessage)
      (l : list (string * Subscription)) :
  (forall m v, P (send m v) = P v) ->
  forall w, P (fold_left (fun acc entry => send (f entry) acc) l w) = P w.
Proof.
  intros HP. induction l as [|entry l IH]; intros w; [reflexivity|].
  cbn [fold_left]. rewrite IH. apply HP.
Qed.












(** The delays of the ten reconnects, in milliseconds. *)
Example backoff_delays :
  List.map backoff_delay (seq 1 10)
  = [2000; 4000; 8000; 16000; 30000; 30000; 30000; 30000; 30000; 30000]%Z.
Proof. reflexivity. Qed.

(** ** Reconnect timers *)

Lemma clearTimeout_not_pending (tid : nat) (w : World) :
  pending tid (clearTimeout tid w) = false.
Proof.
  unfold pending, clearTimeout. cbn [timers set_timers].
  induction (timers w) as [|t l IH]; [reflexivity|].
  cbn [List.filter]. destruct (fst t =? tid)%nat eqn:E; cbn [negb]; [exact IH|].
  cbn [existsb]. rewrite E. exact IH.
Qed.

(** [disconnect()] cancels the timer that the manager holds. *)
Lemma disconnect_cancels (w : World) (tid : nat) :
  reconnectTimeout w = Some tid ->
  pending tid (disconnect w) = false /\ reconnectTimeout (disconnect w) = None.
Proof.
  intros Ht. pose proof (clearTimeout_not_pending tid w) as Hc.
  unfold disconnect. rewrite Ht. unfold pending in *.
  cbn [socket set_reconnectTimeout clearTimeout set_timers].
  destruct (socket w) as [sid|]; [|split; [exact Hc | reflexivity]].
  unfold socket_close.
  destruct (readyState sid _); split; solve [exact Hc | reflexivity].
Qed.

Lemma send_timers (m : OutgoingMessage) (v : World) : timers (send m v) = timers v.
Proof. unfold send. destruct (socket_open v), (socket v); reflexivity. Qed.

Lemma send_reconnectTimeout (m : OutgoingMessage) (v : World) :
  reconnectTimeout (send m v) = reconnectTimeout v.
Proof. unfold send. destruct (socket_open v), (socket v); reflexivity. Qed.

(** [pause()] cancels the timer that the manager holds. *)
Lemma pause_cancels (w : World) (tid : nat) :
  paused w = false -> reconnectTimeout w = Some tid ->
  pending tid (pause w) = false /\ reconnectTimeout (pause w) = None.
Proof.
  intros Hp Ht. unfold pause. rewrite Hp.
  set (w2 := if socket_open (set_paused true w)
             then forEach_subscription
                    (fun sub => sendUnsubscribe (type sub) (params sub))
                    (set_paused true w)
             else set_paused true w).
  assert (E : reconnectTimeout w2 = Some tid).
  { unfold w2. destruct (socket_open (set_paused true w)); [|exact Ht].
    unfold forEach_subscription, sendUnsubscribe.
    rewrite (fold_send_frame reconnectTimeout
               (fun entry => mkOutgoing unsubscribe_method
                               (subscription_of (type (snd entry)) (params (snd entry)))))
      by apply send_reconnectTimeout.
    exact Ht. }
  rewrite E. split; [|reflexivity].
  exact (clearTimeout_not_pending tid w2).
Qed.

(** C6. The manager can hold two pending reconnect timers. Two sockets are
    in flight when a second component subscribes before the first socket
    has opened; each of them fails, and each close schedules a reconnect
    without cancelling the one already pending. [pause()] then cancels only
    the later timer, and the earlier one fires while the manager is paused
    and opens a connection. *)
Theorem two_reconnect_timers_pending :
  let failure := [ call_subscribe "trades" btc 1;
                   call_subscribe "l2Book" btc 2;
                   ev_close 0;
                   ev_close 1 ] in
  (exists w, reachable never_throws w /\ timers w = [(0, 2000%Z); (1, 4000%Z)]) /\
  option_map (fun st => timers (fst st)) (run never_throws failure (initial true, []))
  = Some [(0, 2000%Z); (1, 4000%Z)] /\
  option_map (fun st => (timers (fst st), paused (fst st)))
             (run never_throws (failure ++ [call_pause]) (initial true, []))
  = Some ([(0, 2000%Z)], true) /\
  option_map (fun st => (paused (fst st), status (fst st), sockets (fst st)))
             (run never_throws (failure ++ [call_pause; ev_timer 0]) (initial true, []))
  = Some (true, connecting, [CLOSED; CLOSED; CONNECTING]).
Proof.
  intros failure. split.
  - destruct (run never_throws failure (initial true, [])) as [[w hs]|] eqn:E;
      [|vm_compute in E; discriminate E].
    exists w. split.
    + exists true, failure, hs. exact E.
    + vm_compute in E. injection E as <- _. reflexivity.
  - repeat split; vm_compute; reflexivity.
Qed.

(** ** Sample evaluations *)

Example buildKey_l2Book :
  buildKey "l2Book" [("nLevels", JNum 50); ("coin", JStr "BTC")]
  = "l2Book:{" +:+ quote "coin" +:+ ":" +:+ quote "BTC" +:+ ","
               +:+ quote "nLevels" +:+ ":50}".
Proof. vm_compute. reflexivity. Qed.

Example buildKey_index_keys :
  buildKey "t" [("b", JNull); ("10", JNull); ("9", JNull)]
  = "t:{" +:+ quote "9" +:+ ":null," +:+ quote "10" +:+ ":null,"
          +:+ quote "b" +:+ ":null}".
Proof. vm_compute. reflexivity. Qed.

Example floor_log10_4000 : floor_log10 4000 = 3%Z.
Proof. reflexivity. Qed.

Example floor_log10_small : floor_log10 (7 # 1000) = (-3)%Z.
Proof. reflexivity. Qed.

Example calculateBucketConfig_106000 :
  option_map nSigFigs (calculateBucketConfig 106000 100 1) = Some (Some 4%Z).
Proof. reflexivity. Qed.
